(** * knowledge-repo: the folder backend and the hook-aware commit path

    A shallow embedding of

    - [knowledge_repo/repositories/folder.py] ([FolderKnowledgeRepository]),
      over a model of the POSIX file system calls it makes, and
    - [knowledge_repo/utils/git.py] ([run_commit_hook],
      [IndexFileWrapper.commit]), over a model of the object store.

    Python exceptions are values of [exn]; code that mutates the world runs
    in a state-and-exception monad in which the state survives a raise, as
    it does in Python. *)

From Stdlib Require Import ZArith String Ascii List Lia DecimalString DecimalZ.
From Stdlib.Strings Require Import Byte.
From stdpp Require Import base option list strings gmap sorting.

Open Scope string_scope.
Open Scope list_scope.

(** ** Exceptions and the state-and-exception monad *)

(** What a [HookExecutionError] carries as its status: the exit code of the
    hook process, or the exception that kept it from starting. *)
Inductive hook_status :=
  | ExitCode (returncode : Z)
  | SpawnError (ex : string).

Inductive exn :=
  | FileNotFoundError
  | NotADirectoryError
  | IsADirectoryError
  | FileExistsError
  | RecursionError
  | KeyError (key : string)
  | ValueError
  | BadZipFile
  | NotImplementedError
  | HookExecutionError (command : string) (status : hook_status)
                       (stderr stdout : string).

Definition result (A : Type) : Type := exn + A.

Definition M (S A : Type) : Type := S → S * result A.

Definition ret {S A} (a : A) : M S A := λ s, (s, inr a).

Definition raise {S A} (e : exn) : M S A := λ s, (s, inl e).

Definition bind {S A B} (m : M S A) (k : A → M S B) : M S B :=
  λ s, match m s with
       | (s', inr a) => k a s'
       | (s', inl e) => (s', inl e)
       end.

(** [try: m except Exception as e: h e] *)
Definition try_except {S A} (m : M S A) (h : exn → M S A) : M S A :=
  λ s, match m s with
       | (s', inl e) => h e s'
       | r => r
       end.

(** A call that only inspects the state and may raise. *)
Definition attempt {S A} (f : S → result A) : M S A := λ s, (s, f s).

Notation "x <- m ;; k" := (bind m (λ x, k))
  (at level 100, m at next level, k at level 200, right associativity,
   only parsing).
Notation "m ;;; k" := (bind m (λ _, k))
  (at level 100, k at level 200, right associativity, only parsing).

Definition bytes : Type := list byte.

(** [s.startswith(pre)] *)
Definition startswith (pre s : string) : bool := String.prefix pre s.

(** ** [posixpath]: the string functions on paths *)

Module posixpath.

Definition sep : ascii := "/"%char.

Definition is_sep (c : ascii) : bool := Ascii.eqb c sep.

(** [p.startswith('/')], which is also [isabs p] *)
Definition startswith_sep (p : string) : bool :=
  match p with
  | String c _ => is_sep c
  | EmptyString => false
  end.

Definition isabs : string → bool := startswith_sep.

(** [p.endswith('/')] *)
Fixpoint endswith_sep (p : string) : bool :=
  match p with
  | EmptyString => false
  | String c EmptyString => is_sep c
  | String _ p' => endswith_sep p'
  end.

(** [join(a, b)]: an absolute [b] discards [a]. *)
Definition join (a b : string) : string :=
  if startswith_sep b then b
  else if String.eqb a "" || endswith_sep a then a +:+ b
  else a +:+ "/" +:+ b.

(** [p.split('/')] *)
Fixpoint split_sep (p : string) : list string :=
  match p with
  | EmptyString => [EmptyString]
  | String c p' =>
      if is_sep c then EmptyString :: split_sep p'
      else match split_sep p' with
           | w :: ws => String c w :: ws
           | [] => [String c EmptyString]
           end
  end.

(** [(p[:i], p[i:])] with [i = p.rfind('/') + 1], when [p] has a slash *)
Fixpoint rpartition_sep (p : string) : option (string * string) :=
  match p with
  | EmptyString => None
  | String c p' =>
      match rpartition_sep p' with
      | Some (h, t) => Some (String c h, t)
      | None => if is_sep c then Some (String c EmptyString, p') else None
      end
  end.

(** [p.rstrip('/')] *)
Fixpoint rstrip_sep (p : string) : string :=
  match p with
  | EmptyString => EmptyString
  | String c p' =>
      match rstrip_sep p' with
      | EmptyString => if is_sep c then EmptyString else String c EmptyString
      | r => String c r
      end
  end.

(** [split(p)]: head and tail around the last slash; the head loses its
    trailing slashes unless it consists of slashes only. *)
Definition split (p : string) : string * string :=
  let '(head, tail) :=
    match rpartition_sep p with
    | Some (h, t) => (h, t)
    | None => (EmptyString, p)
    end in
  (match rstrip_sep head with
   | EmptyString => head
   | stripped => stripped
   end, tail).

Definition dirname (p : string) : string := fst (split p).

(** ['/'.join(comps)] *)
Fixpoint join_sep (comps : list string) : string :=
  match comps with
  | [] => EmptyString
  | [c] => c
  | c :: rest => c +:+ "/" +:+ join_sep rest
  end.

(** One step of the loop of [normpath] over the components. *)
Definition normpath_step (initial_slashes : nat) (new_comps : list string)
    (comp : string) : list string :=
  if String.eqb comp "" || String.eqb comp "." then new_comps
  else if negb (String.eqb comp "..")
          || (Nat.eqb initial_slashes 0 && bool_decide (new_comps = []))
          || match last new_comps with
             | Some l => String.eqb l ".."
             | None => false
             end
  then new_comps ++ [comp]
  else removelast new_comps.

Definition normpath (path : string) : string :=
  if String.eqb path "" then "."
  else
    let initial_slashes :=
      if startswith "//" path && negb (startswith "///" path) then 2
      else if startswith_sep path then 1 else 0 in
    let comps := fold_left (normpath_step initial_slashes) (split_sep path) [] in
    let path := String.concat "" (replicate initial_slashes "/") +:+ join_sep comps in
    if String.eqb path "" then "." else path.

(** [abspath], with the current directory of the process as an argument. *)
Definition abspath (getcwd path : string) : string :=
  normpath (if isabs path then path else join getcwd path).

Fixpoint commonprefix_len (a b : list string) : nat :=
  match a, b with
  | x :: a', y :: b' => if String.eqb x y then S (commonprefix_len a' b') else 0
  | _, _ => 0
  end.

Definition nonempty_comps (p : string) : list string :=
  filter (λ x, x ≠ "") (split_sep p).

(** [relpath(path, start)] *)
Definition relpath (getcwd path start : string) : result string :=
  if String.eqb path "" then inl ValueError
  else
    let start_list := nonempty_comps (abspath getcwd start) in
    let path_list := nonempty_comps (abspath getcwd path) in
    let i := commonprefix_len start_list path_list in
    let rel_list := replicate (length start_list - i) ".." ++ drop i path_list in
    match rel_list with
    | [] => inr "."
    | c :: rest => inr (fold_left join rest c)
    end.

End posixpath.

(** ** The file system

    A tree of directories and regular files, kept as a finite map from the
    canonical location of a node (the names on the way down from the root,
    which is [[]]) to what is there.  There are no symbolic links. *)

Inductive node :=
  | Dir
  | File (data : bytes).

Abbreviation filesystem := (gmap (list string) node).

Module post.

(** Modelled from the spec: [knowledge_repo/post.py] is not under src/.  The
    data model of the spec gives a post its [headers], a mapping of metadata
    keys, and its [references], a "mapping from reference name (string,
    path-like within the post) to binary content". *)
Record KnowledgePost := {
  headers : gmap string string;
  references : gmap string bytes
}.

End post.

(** What the code under verification takes from its surroundings: the
    current directory of the process, and the library functions of this
    repository and of Python that are not under src/. *)
Record Env := {
  getcwd : string;
  (** [KpConverter.to_file] / [from_file]: the packed archive format *)
  kp_dumps : post.KnowledgePost → bytes;
  kp_loads : bytes → option post.KnowledgePost;
  (** [KnowledgePost._dir] *)
  kp_listing : post.KnowledgePost → option string → list string;
  (** [urllib.parse.urlparse(uri).netloc], [.path], and [url2pathname] *)
  urlparse_netloc : string → string;
  urlparse_path : string → string;
  url2pathname : string → string
}.

Module os.

(** Following one component from the directory [cur]. *)
Definition step (cur : list string) (comp : string) : list string :=
  if String.eqb comp "" || String.eqb comp "." then cur
  else if String.eqb comp ".." then removelast cur
  else cur ++ [comp].

(** Path resolution: every component is looked up in a directory. *)
Fixpoint lookup_from (fs : filesystem) (cur : list string)
    (comps : list string) : result (list string) :=
  match comps with
  | [] => inr cur
  | comp :: rest =>
      match fs !! cur with
      | Some Dir => lookup_from fs (step cur comp) rest
      | Some (File _) => inl NotADirectoryError
      | None => inl FileNotFoundError
      end
  end.

Definition resolve (E : Env) (fs : filesystem) (p : string)
    : result (list string) :=
  if String.eqb p "" then inl FileNotFoundError
  else lookup_from fs []
         (posixpath.split_sep
            (if posixpath.isabs p then p else posixpath.join (getcwd E) p)).

Definition stat (E : Env) (fs : filesystem) (p : string) : result node :=
  match resolve E fs p with
  | inr c => match fs !! c with
             | Some n => inr n
             | None => inl FileNotFoundError
             end
  | inl e => inl e
  end.

(** [os.path.exists], [os.path.isdir], [os.path.isfile]: false on any error *)
Definition path_exists (E : Env) (fs : filesystem) (p : string) : bool :=
  match stat E fs p with inr _ => true | inl _ => false end.

Definition isdir (E : Env) (fs : filesystem) (p : string) : bool :=
  match stat E fs p with inr Dir => true | _ => false end.

Definition isfile (E : Env) (fs : filesystem) (p : string) : bool :=
  match stat E fs p with inr (File _) => true | _ => false end.

(** Creating the entry [c], whose parent has to be a directory. *)
Definition create (c : list string) (n : node) : M filesystem unit :=
  λ fs, match fs !! removelast c with
        | Some Dir => (<[c := n]> fs, inr tt)
        | Some (File _) => (fs, inl NotADirectoryError)
        | None => (fs, inl FileNotFoundError)
        end.

(** [os.mkdir(p)]; trailing slashes are allowed on the name to create. *)
Definition mkdir (E : Env) (p : string) : M filesystem unit :=
  λ fs,
    let p' := match posixpath.rstrip_sep p with
              | EmptyString => p
              | stripped => stripped
              end in
    match resolve E fs p' with
    | inl e => (fs, inl e)
    | inr c => match fs !! c with
               | Some _ => (fs, inl FileExistsError)
               | None => create c Dir fs
               end
    end.

(** [os.makedirs(name)] with [exist_ok=False]; [fuel] bounds the recursion
    on the head of the name. *)
Fixpoint makedirs_rec (fuel : nat) (E : Env) (name : string)
    : M filesystem unit :=
  match fuel with
  | O => raise RecursionError
  | S fuel' =>
      let '(head, tail) := posixpath.split name in
      let '(head, tail) :=
        if String.eqb tail "" then posixpath.split head else (head, tail) in
      λ fs,
        if negb (String.eqb head "") && negb (String.eqb tail "")
           && negb (path_exists E fs head)
        then
          match makedirs_rec fuel' E head fs with
          | (fs', inl FileExistsError) | (fs', inr tt) =>
              if String.eqb tail "." then (fs', inr tt) else mkdir E name fs'
          | (fs', inl e) => (fs', inl e)
          end
        else mkdir E name fs
  end.

Definition makedirs (E : Env) (name : string) : M filesystem unit :=
  makedirs_rec (S (String.length name)) E name.

(** [c ++ rest = k] *)
Fixpoint below (c k : list string) : option (list string) :=
  match c, k with
  | [], rest => Some rest
  | x :: c', y :: k' => if String.eqb x y then below c' k' else None
  | _ :: _, [] => None
  end.

(** The entries of the directory at [c]. *)
Definition scandir (fs : filesystem) (c : list string) : list (string * node) :=
  omap (λ '(k, n), match below c k with
                   | Some [name] => Some (name, n)
                   | _ => None
                   end) (map_to_list fs).

Definition entry_is_dir (e : string * node) : bool :=
  match e.2 with Dir => true | File _ => false end.

(** [os.walk(top)], top-down, as the list of the triples it yields.  A [top]
    that is no directory yields nothing.  [fuel] bounds the depth of the
    descent, which is never more than the number of entries. *)
Fixpoint walk_rec (fuel : nat) (E : Env) (fs : filesystem) (top : string)
    : list (string * list string * list string) :=
  match fuel with
  | O => []
  | S fuel' =>
      match resolve E fs top with
      | inr c =>
          match fs !! c with
          | Some Dir =>
              let entries := scandir fs c in
              let dirs := (filter entry_is_dir entries).*1 in
              let nondirs := (filter (λ e, ¬ entry_is_dir e) entries).*1 in
              (top, dirs, nondirs)
                :: concat (map (λ d, walk_rec fuel' E fs (posixpath.join top d))
                               dirs)
          | _ => []
          end
      | inl _ => []
      end
  end.

Definition walk (E : Env) (fs : filesystem) (top : string)
    : list (string * list string * list string) :=
  walk_rec (S (size fs)) E fs top.

End os.

Module shutil.

(** [shutil.rmtree(p)]: the directory and all below it; anything but a
    directory is an error. *)
Definition rmtree (E : Env) (p : string) : M filesystem unit :=
  λ fs, match os.resolve E fs p with
        | inl e => (fs, inl e)
        | inr c =>
            match fs !! c with
            | Some Dir =>
                (filter (λ kn, bool_decide (os.below c kn.1 = None)) fs, inr tt)
            | Some (File _) => (fs, inl NotADirectoryError)
            | None => (fs, inl FileNotFoundError)
            end
        end.

End shutil.

Module files.

(** Modelled from the spec: [knowledge_repo/utils/files.py] is not under
    src/.  [read_binary] returns "the raw bytes" of the file, [write_binary]
    "overwrites or creates" it: [open(filename, 'rb').read()] and
    [open(filename, 'wb').write(data)]. *)
Definition read_binary (E : Env) (filename : string)
    : filesystem → result bytes :=
  λ fs, match os.stat E fs filename with
        | inr (File data) => inr data
        | inr Dir => inl IsADirectoryError
        | inl e => inl e
        end.

(** Modelled from the spec: [utils/files.py] is not under src/;
    [write_binary] "overwrites or creates" the file, whose directory has to
    exist. *)
Definition write_binary (E : Env) (filename : string) (data : bytes)
    : M filesystem unit :=
  λ fs, match os.resolve E fs filename with
        | inl e => (fs, inl e)
        | inr c =>
            match fs !! c with
            | Some Dir => (fs, inl IsADirectoryError)
            | Some (File _) => (<[c := File data]> fs, inr tt)
            | None => os.create c (File data) fs
            end
        end.

End files.

Module builtins.

Definition is_space (c : ascii) : bool :=
  let n := nat_of_ascii c in Nat.eqb n 32 || (Nat.leb 9 n && Nat.leb n 13).

Definition is_digit (c : ascii) : bool :=
  let n := nat_of_ascii c in Nat.leb 48 n && Nat.leb n 57.

Fixpoint lstrip (s : string) : string :=
  match s with
  | String c s' => if is_space c then lstrip s' else s
  | EmptyString => EmptyString
  end.

Fixpoint rstrip (s : string) : string :=
  match s with
  | EmptyString => EmptyString
  | String c s' =>
      match rstrip s' with
      | EmptyString => if is_space c then EmptyString else String c EmptyString
      | r => String c r
      end
  end.

Definition strip (s : string) : string := rstrip (lstrip s).

(** The digits of a literal in which single underscores may stand between
    two digits. *)
Fixpoint drop_underscores (after_digit : bool) (s : string) : option string :=
  match s with
  | EmptyString => Some EmptyString
  | String c s' =>
      if Ascii.eqb c "_" then
        if after_digit
           && match s' with String d _ => is_digit d | EmptyString => false end
        then drop_underscores false s'
        else None
      else option_map (String c) (drop_underscores (is_digit c) s')
  end.

(** An optional sign in front of the digits: whether it is a minus, and
    what follows it. *)
Definition split_sign (s : string) : bool * string :=
  match s with
  | String "-" r => (true, r)
  | String "+" r => (false, r)
  | _ => (false, s)
  end.

(** [int(b)] for a [bytes] object, base ten: optional white space around an
    optional sign and a non-empty run of digits.  (The optional limit of the
    interpreter on the number of digits is not modelled.) *)
Definition int (b : bytes) : result Z :=
  let s := strip (string_of_list_byte b) in
  let '(negative, body) := split_sign s in
  match drop_underscores false body ≫= NilZero.uint_of_string with
  | Some d => inr (if negative : bool then - Z.of_uint d else Z.of_uint d)%Z
  | None => inl ValueError
  end.

(** The truth value of an optional string: [None] and [''] are false. *)
Definition truthy (s : option string) : bool :=
  match s with
  | Some (String _ _) => true
  | _ => false
  end.

End builtins.

Module encoding.

(** Modelled from the spec: [knowledge_repo/utils/encoding.py] is not under
    src/.  The reserved references are "REVISION (decimal ASCII integer),
    UUID (opaque string)": [encode] turns an integer into its decimal
    digits and a string into its bytes. *)
Definition encode_int (n : Z) : bytes :=
  list_byte_of_string (NilZero.string_of_int (Z.to_int n)).

(** Modelled from the spec: [utils/encoding.py] is not under src/; "UUID
    (opaque string)" is stored as the bytes of the string. *)
Definition encode_str (s : string) : bytes := list_byte_of_string s.

End encoding.

Module KnowledgePost.

Import post.

(** Modelled from the spec: the methods of [KnowledgePost] and the "kp"
    converter are not under src/.  The packed form is "a single file
    encoding headers + references in one container"; reading a reference
    "fails with NotFound if absent", writing "overwrites or creates" it. *)
Definition from_file (E : Env) (filename : string)
    : filesystem → result KnowledgePost :=
  λ fs, match files.read_binary E filename fs with
        | inr data => match kp_loads E data with
                      | Some kp => inr kp
                      | None => inl BadZipFile
                      end
        | inl e => inl e
        end.

(** Modelled from the spec: [KnowledgePost.to_file] is not under src/; the
    packed form "rewrites the whole archive". *)
Definition to_file (E : Env) (kp : KnowledgePost) (filename : string)
    : M filesystem unit :=
  files.write_binary E filename (kp_dumps E kp).

(** Modelled from the spec: [KnowledgePost._read_ref] is not under src/;
    it "returns the raw bytes of a reference; fails with NotFound if
    absent". *)
Definition _read_ref (kp : KnowledgePost) (ref : string) : result bytes :=
  match references kp !! ref with
  | Some data => inr data
  | None => inl (KeyError ref)
  end.

(** Modelled from the spec: [KnowledgePost._write_ref] is not under src/;
    it "overwrites or creates a reference". *)
Definition _write_ref (kp : KnowledgePost) (ref : string) (data : bytes)
    : KnowledgePost :=
  {| headers := headers kp; references := <[ref := data]> (references kp) |}.

(** Modelled from the spec: [KnowledgePost._has_ref] is not under src/; a
    "boolean probe" of the mapping. *)
Definition _has_ref (kp : KnowledgePost) (ref : string) : bool :=
  bool_decide (is_Some (references kp !! ref)).

(** Modelled from the spec: [KnowledgePost._dir] is not under src/, and the
    spec does not say what it lists; it is left to the environment. *)
Definition _dir (E : Env) (kp : KnowledgePost) (parent : option string)
    : list string :=
  kp_listing E kp parent.

End KnowledgePost.

(** ** [repositories/folder.py]

    The methods of [FolderKnowledgeRepository], under their names.  The
    keyword arguments the code accepts and does not use ([revision], [uuid],
    [all], [branch], [force], and the [*args] of [from_uri]) are left out,
    and so are the calls of the logger. *)

(** [KnowledgeRepository.PostStatus] *)
Inductive PostStatus := DRAFT | SUBMITTED | PUBLISHED | UNPUBLISHED.

(** The two repository classes [from_uri] chooses between. *)
Inductive repository_class :=
  | FolderKnowledgeRepository_cls
  | GitKnowledgeRepository_cls.

(** An instance of [FolderKnowledgeRepository]: [self.path]. *)
Record FolderKnowledgeRepository := { _path : string }.

(** The results of a list of calls, up to the first one that raises. *)
Fixpoint sequence {A} (l : list (result A)) : result (list A) :=
  match l with
  | [] => inr []
  | inl e :: _ => inl e
  | inr a :: l' => match sequence l' with
                   | inr r => inr (a :: r)
                   | inl e => inl e
                   end
  end.

Module folder.

Import posixpath.

Definition uri_to_path (E : Env) (uri : string) : string :=
  abspath (getcwd E)
    (join ("/" +:+ "/" +:+ urlparse_netloc E uri +:+ "/")
          (url2pathname E (urlparse_path E uri))).

(** [from_uri]: the class that is instantiated, and the argument it gets. *)
Definition from_uri (E : Env) (cls : repository_class) (uri : string)
    : filesystem → repository_class * string :=
  λ fs,
    let check_for_git := true in
    let '(check_for_git, uri) :=
      if startswith "file://" uri then (false, uri_to_path E uri)
      else (check_for_git, uri) in
    if check_for_git && os.path_exists E fs (join uri ".git")
    then (GitKnowledgeRepository_cls, uri)
    else (cls, uri).

Definition _submit (self : FolderKnowledgeRepository) (path : option string)
    : M filesystem unit :=
  ret tt.

Definition _publish (self : FolderKnowledgeRepository) (path : string)
    : M filesystem unit :=
  ret tt.

Definition _unpublish (self : FolderKnowledgeRepository) (path : string)
    : M filesystem unit :=
  raise NotImplementedError.

Definition _accept (self : FolderKnowledgeRepository) (path : string)
    : M filesystem unit :=
  ret tt.

Definition _remove (E : Env) (self : FolderKnowledgeRepository) (path : string)
    : M filesystem unit :=
  shutil.rmtree E (join (_path self) path).

Definition _kp_read_ref (E : Env) (self : FolderKnowledgeRepository)
    (path reference : string) : filesystem → result bytes :=
  λ fs,
    let path := join (_path self) path in
    if os.isdir E fs path then
      files.read_binary E (join (join (_path self) path) reference) fs
    else
      match KnowledgePost.from_file E path fs with
      | inr kp => KnowledgePost._read_ref kp reference
      | inl e => inl e
      end.

Definition _kp_uuid (E : Env) (self : FolderKnowledgeRepository) (path : string)
    : M filesystem (option bytes) :=
  try_except
    (data <- attempt (_kp_read_ref E self path "UUID") ;; ret (Some data))
    (λ _, ret None).

Definition _kp_exists (E : Env) (self : FolderKnowledgeRepository)
    (path : string) : filesystem → bool :=
  λ fs, os.path_exists E fs (join (_path self) path).

Definition _kp_status (self : FolderKnowledgeRepository) (path : string)
    (revision : option Z) (detailed : bool) (branch : option string)
    : PostStatus :=
  PUBLISHED.

Definition _kp_get_revision (E : Env) (self : FolderKnowledgeRepository)
    (path : string) : M filesystem Z :=
  try_except
    (data <- attempt (_kp_read_ref E self path "REVISION") ;;
     attempt (λ _, builtins.int data))
    (λ _, ret 0%Z).

Definition _kp_write_ref (E : Env) (self : FolderKnowledgeRepository)
    (path reference : string) (data : bytes) : M filesystem unit :=
  let path := join (_path self) path in
  λ fs,
    if os.isfile E fs path then
      (kp <- attempt (KnowledgePost.from_file E path) ;;
       let kp := KnowledgePost._write_ref kp reference data in
       KnowledgePost.to_file E kp path) fs
    else
      (let ref_path := join path reference in
       let ref_dir := dirname ref_path in
       (λ fs, if negb (os.path_exists E fs ref_dir)
              then os.makedirs E ref_dir fs else ret tt fs) ;;;
       files.write_binary E ref_path data) fs.

(** The names one triple of [os.walk] contributes to [_kp_dir]. *)
Definition _kp_dir_names (E : Env) (self : FolderKnowledgeRepository)
    (path : string) (triple : string * list string * list string)
    : list (result string) :=
  let '(dirpath, dirnames, filenames) := triple in
  flat_map
    (λ filename,
       if String.eqb dirpath "" && String.eqb filename "REVISION" then []
       else [relpath (getcwd E) (join dirpath filename)
                     (join (_path self) path)])
    filenames.

(** [_kp_dir] is a generator; this is the list of what it yields. *)
Definition _kp_dir (E : Env) (self : FolderKnowledgeRepository)
    (path : string) (parent : option string)
    : filesystem → result (list string) :=
  λ fs,
    let path := join (_path self) path in
    if os.isdir E fs path then
      let path := match parent with
                  | Some (String _ _ as parent) => join path parent
                  | _ => path
                  end in
      sequence
        (flat_map (_kp_dir_names E self path)
                  (os.walk E fs (join (_path self) path)))
    else
      match KnowledgePost.from_file E path fs with
      | inr kp => inr (KnowledgePost._dir E kp parent)
      | inl e => inl e
      end.

Definition _kp_has_ref (E : Env) (self : FolderKnowledgeRepository)
    (path reference : string) : filesystem → result bool :=
  λ fs,
    let path := join (_path self) path in
    if os.isdir E fs path then inr (os.isfile E fs (join path reference))
    else
      match KnowledgePost.from_file E path fs with
      | inr kp => inr (KnowledgePost._has_ref kp reference)
      | inl e => inl e
      end.

Definition _kp_new_revision (E : Env) (self : FolderKnowledgeRepository)
    (path : string) (uuid : option string) : M filesystem unit :=
  revision <- _kp_get_revision E self path ;;
  _kp_write_ref E self path "REVISION" (encoding.encode_int (revision + 1)) ;;;
  match uuid with
  | Some (String _ _ as uuid) =>
      _kp_write_ref E self path "UUID" (encoding.encode_str uuid)
  | _ => ret tt
  end.

End folder.

(** [n] calls of [_kp_new_revision] in a row, one per element of [uuids]. *)
Fixpoint new_revisions (E : Env) (self : FolderKnowledgeRepository)
    (path : string) (uuids : list (option string)) : M filesystem unit :=
  match uuids with
  | [] => ret tt
  | uuid :: rest =>
      folder._kp_new_revision E self path uuid ;;;
      new_revisions E self path rest
  end.

(** ** [utils/git.py]

    The repository as the commit path sees it: the hook files, the index,
    the objects written so far, [HEAD], and the scratch file for the commit
    message.  A hook is an external program; it is modelled by what it
    returns and by what it does to the message file it is handed.  The host
    is a POSIX one ([is_win] is false), so a hook is run directly. *)

Module git.

Record hook_run := {
  returncode : Z;
  stdout : string;
  stderr : string;
  edited_message : option string
}.

(** What [os.access(hp, os.X_OK)] and [Popen] find at a hook path. *)
Inductive hook_file :=
  | NotExecutable
  | CannotStart (ex : string)
  | Executable (run : list string → option string → hook_run).

Record Signature := {
  author : option string;
  committer : option string;
  author_date : option string;
  commit_date : option string
}.

Abbreviation Tree := (list (string * bytes)).

Record Commit := {
  hexsha : nat;
  tree : Tree;
  message : string;
  parents : list nat;
  signature : Signature
}.

Record Repo := {
  git_dir : string;
  hooks : string → hook_file;
  index : Tree;
  trees : list Tree;
  commits : list Commit;
  HEAD : option nat;
  COMMIT_EDITMSG : option string
}.

Definition set_editmsg (st : Repo) (m : option string) : Repo :=
  {| git_dir := git_dir st; hooks := hooks st; index := index st;
     trees := trees st; commits := commits st; HEAD := HEAD st;
     COMMIT_EDITMSG := m |}.

(** [git.index.fun.hook_path] *)
Definition hook_path (name git_dir : string) : string :=
  posixpath.join (posixpath.join git_dir "hooks") name.

Definition run_commit_hook (name : string) (args : list string) : M Repo unit :=
  λ st,
    let hp := hook_path name (git_dir st) in
    match hooks st hp with
    | NotExecutable => (st, inr tt)
    | CannotStart ex =>
        (st, inl (HookExecutionError hp (SpawnError ex) "" ""))
    | Executable run =>
        let process := run args (COMMIT_EDITMSG st) in
        let st' := match edited_message process with
                   | Some m => set_editmsg st (Some m)
                   | None => st
                   end in
        if negb (Z.eqb (returncode process) 0) then
          (st', inl (HookExecutionError hp (ExitCode (returncode process))
                                        (stderr process) (stdout process)))
        else (st', inr tt)
    end.

Definition _commit_editmsg_filepath (st : Repo) : string :=
  posixpath.join (git_dir st) "COMMIT_EDITMSG".

Definition _write_commit_editmsg (message : string) : M Repo unit :=
  λ st, (set_editmsg st (Some message), inr tt).

Definition _read_commit_editmsg : M Repo string :=
  λ st, match COMMIT_EDITMSG st with
        | Some m => (st, inr m)
        | None => (st, inl FileNotFoundError)
        end.

Definition _remove_commit_editmsg : M Repo unit :=
  λ st, (set_editmsg st None, inr tt).

(** [IndexFile.write_tree]: the index becomes a tree object. *)
Definition write_tree : M Repo Tree :=
  λ st, ({| git_dir := git_dir st; hooks := hooks st; index := index st;
            trees := index st :: trees st; commits := commits st;
            HEAD := HEAD st; COMMIT_EDITMSG := COMMIT_EDITMSG st |},
         inr (index st)).

(** [Commit.create_from_tree]: the commit object is written, and [HEAD]
    moves to it when [head] is set. *)
Definition create_from_tree (tree : Tree) (message : string)
    (parent_commits : option (list nat)) (head : bool) (sig : Signature)
    : M Repo Commit :=
  λ st,
    let c := {| hexsha := length (commits st); tree := tree;
                message := message;
                parents := match parent_commits with
                           | Some ps => ps
                           | None => match HEAD st with
                                     | Some h => [h]
                                     | None => []
                                     end
                           end;
                signature := sig |} in
    ({| git_dir := git_dir st; hooks := hooks st; index := index st;
        trees := trees st; commits := c :: commits st;
        HEAD := if head then Some (hexsha c) else HEAD st;
        COMMIT_EDITMSG := COMMIT_EDITMSG st |},
     inr c).

(** [IndexFileWrapper.commit] *)
Definition commit (message : string) (parent_commits : option (list nat))
    (head : bool) (sig : Signature) (skip_hooks : bool) : M Repo Commit :=
  message <-
    (if negb skip_hooks then
       run_commit_hook "pre-commit" [] ;;;
       _write_commit_editmsg message ;;;
       (λ st, run_commit_hook "commit-msg" [_commit_editmsg_filepath st] st) ;;;
       message <- _read_commit_editmsg ;;
       _remove_commit_editmsg ;;;
       ret message
     else ret message) ;;
  tree <- write_tree ;;
  rval <- create_from_tree tree message parent_commits head sig ;;
  (if negb skip_hooks then run_commit_hook "post-commit" [] else ret tt) ;;;
  ret rval.

(** A hook that does not stop the commit: absent, or run with exit code 0. *)
Definition hook_passes (st : Repo) (name : string) : Prop :=
  match hooks st (hook_path name (git_dir st)) with
  | NotExecutable => True
  | CannotStart _ => False
  | Executable run => ∀ args msg, returncode (run args msg) = 0%Z
  end.

End git.

(** ** A concrete environment, for the examples *)

Module example.

#[local] Instance byte_eq_dec : EqDecision byte := Byte.byte_eq_dec.

#[local] Instance byte_countable : Countable byte :=
  inj_countable Byte.to_N Byte.of_N Byte.of_to_N.

#[local] Instance KnowledgePost_eq_dec : EqDecision post.KnowledgePost.
Proof. solve_decision. Defined.

Definition of_pair (hr : gmap string string * gmap string bytes)
    : post.KnowledgePost :=
  {| post.headers := hr.1; post.references := hr.2 |}.

Definition to_pair (kp : post.KnowledgePost)
    : gmap string string * gmap string bytes :=
  (post.headers kp, post.references kp).

Definition of_to_pair (kp : post.KnowledgePost) : of_pair (to_pair kp) = kp :=
  match kp with
  | {| post.headers := _; post.references := _ |} => eq_refl
  end.

#[local] Instance KnowledgePost_countable : Countable post.KnowledgePost :=
  inj_countable' to_pair of_pair of_to_pair.

(** An archive format: the post, numbered, in decimal digits. *)
Definition dumps (kp : post.KnowledgePost) : bytes :=
  list_byte_of_string (NilEmpty.string_of_uint (Pos.to_uint (encode kp))).

Definition loads (data : bytes) : option post.KnowledgePost :=
  d ← NilEmpty.uint_of_string (string_of_list_byte data);
  match Pos.of_uint d with
  | Npos p => decode p
  | N0 => None
  end.

Definition listing (kp : post.KnowledgePost) (parent : option string)
    : list string :=
  filter (λ name, startswith (default "" parent) name)
         (map_to_list (post.references kp)).*1.

Definition E : Env := {|
  getcwd := "/";
  kp_dumps := dumps;
  kp_loads := loads;
  kp_listing := listing;
  urlparse_netloc := λ _, "";
  urlparse_path := λ uri, String.substring 7 (String.length uri - 7) uri;
  url2pathname := λ p, p
|}.

Definition repo : FolderKnowledgeRepository := {| _path := "/repo" |}.

(** [/repo], empty. *)
Definition fs_empty : filesystem :=
  <[ ["repo"] := Dir ]> (<[ [] := Dir ]> ∅).

(** [/repo/post.kp] in the expanded form, after one [add]. *)
Definition fs_expanded : filesystem :=
  <[ ["repo"; "post.kp"; "knowledge.md"] := File (list_byte_of_string "# T") ]>
  (<[ ["repo"; "post.kp"; "UUID"] := File (list_byte_of_string "1b9d6bcd") ]>
  (<[ ["repo"; "post.kp"; "REVISION"] := File (list_byte_of_string "1") ]>
  (<[ ["repo"; "post.kp"] := Dir ]> fs_empty))).

Definition kp_packed : post.KnowledgePost :=
  {| post.headers := ∅;
     post.references :=
       <[ "knowledge.md" := list_byte_of_string "# T" ]>
       (<[ "REVISION" := list_byte_of_string "1" ]> ∅) |}.

(** [/repo/post.kp] in the packed form. *)
Definition fs_packed : filesystem :=
  <[ ["repo"; "post.kp"] := File (dumps kp_packed) ]> fs_empty.

(** [/repo] is a git work tree whose [.git] is a regular file, as in a
    linked work tree or a submodule. *)
Definition fs_gitfile : filesystem :=
  <[ ["repo"; ".git"] := File (list_byte_of_string "gitdir: /x") ]> fs_empty.

(** A repository with one staged file and no commit yet, and the hooks
    of [hooks]. *)
Definition git_repo (hooks : string → git.hook_file) : git.Repo :=
  {| git.git_dir := "/repo/.git";
     git.hooks := hooks;
     git.index := [("post.kp/knowledge.md", list_byte_of_string "# T")];
     git.trees := [];
     git.commits := [];
     git.HEAD := None;
     git.COMMIT_EDITMSG := None |}.

(** A hook file at [hp] that prints and exits with [code]; no other hook. *)
Definition one_hook (hp : string) (code : Z) : string → git.hook_file :=
  λ p, if String.eqb p hp
       then git.Executable
              (λ _ _, {| git.returncode := code; git.stdout := "checking";
                         git.stderr := "failed"; git.edited_message := None |})
       else git.NotExecutable.

(** The hook file of a repository whose git directory is [/repo/.git]. *)
Definition pre_commit_fails : git.Repo :=
  git_repo (one_hook "/repo/.git/hooks/pre-commit" 1).


Definition no_signature : git.Signature :=
  {| git.author := None; git.committer := None;
     git.author_date := None; git.commit_date := None |}.

End example.


(** ** Notions used in the statements *)

(** The packed archive format is round-trip exact. *)
Definition kp_roundtrip (E : Env) : Prop :=
  ∀ kp, kp_loads E (kp_dumps E kp) = Some kp.

(** Every directory of [fs] is a directory of [fs']. *)
Definition dirs_kept (fs fs' : filesystem) : Prop :=
  ∀ c, fs !! c = Some Dir → fs' !! c = Some Dir.

(** A reference name that is a single path component. *)
Definition plain_name (r : string) : Prop :=
  posixpath.split_sep r = [r] ∧ r ≠ "" ∧ r ≠ "." ∧ r ≠ "..".

Fixpoint all_chars (f : ascii → bool) (s : string) : bool :=
  match s with
  | EmptyString => true
  | String c s' => f c && all_chars f s'
  end.

(** Two states of a repository that differ at most in the scratch file for
    the commit message. *)
Definition same_objects (st st' : git.Repo) : Prop :=
  git.git_dir st' = git.git_dir st ∧ git.hooks st' = git.hooks st
  ∧ git.index st' = git.index st ∧ git.trees st' = git.trees st
  ∧ git.commits st' = git.commits st ∧ git.HEAD st' = git.HEAD st.

(** A string without a slash; a component a normalised path is made of. *)
Definition no_sep (s : string) : Prop :=
  all_chars (λ c, negb (posixpath.is_sep c)) s = true.

Definition good_comp (s : string) : Prop := s ≠ "" ∧ no_sep s.

(** A component of a normalised absolute path: a name, not a dot. *)
Definition normal_comp (s : string) : Prop :=
  good_comp s ∧ s ≠ "." ∧ s ≠ "..".


(** ** More of the code: copying files, creating a repository *)

(** [shutil.copy] has one error of its own. *)
Inductive shutil_exn :=
  | SameFileError
  | Raised (e : exn).

(** Code that calls [shutil.copy] runs with this larger set of errors. *)
Definition Mx (A : Type) : Type := filesystem → filesystem * (shutil_exn + A).

Definition retx {A} (a : A) : Mx A := λ fs, (fs, inr a).

Definition bindx {A B} (m : Mx A) (k : A → Mx B) : Mx B :=
  λ fs, match m fs with
        | (fs', inr a) => k a fs'
        | (fs', inl e) => (fs', inl e)
        end.

Definition lift {A} (m : M filesystem A) : Mx A :=
  λ fs, match m fs with
        | (fs', inr a) => (fs', inr a)
        | (fs', inl e) => (fs', inl (Raised e))
        end.

Module shutil_copy.

(** [os.path.basename] *)
Definition basename (p : string) : string := snd (posixpath.split p).

(** [shutil._samefile]: both paths lead to one existing entry; false on any
    error. *)
Definition samefile (E : Env) (fs : filesystem) (a b : string) : bool :=
  match os.resolve E fs a, os.resolve E fs b with
  | inr ca, inr cb =>
      bool_decide (ca = cb) && bool_decide (is_Some (fs !! ca))
  | _, _ => false
  end.

(** [shutil.copy(src, dst)]: into [dst] when that is a directory; the source
    is opened first, then the destination is written; the path written to is
    returned.  (File modes are not part of the model.) *)
Definition copy (E : Env) (src dst : string) : Mx string :=
  λ fs,
    let dst := if os.isdir E fs dst
               then posixpath.join dst (basename src) else dst in
    if samefile E fs src dst then (fs, inl SameFileError)
    else
      match files.read_binary E src fs with
      | inl e => (fs, inl (Raised e))
      | inr data =>
          match files.write_binary E dst data fs with
          | (fs', inr _) => (fs', inr dst)
          | (fs', inl e) => (fs', inl (Raised e))
          end
      end.

End shutil_copy.

Module folder_create.

Import posixpath.

(** [FolderKnowledgeRepository.TEMPLATES]; the two template files of the
    package are found by [get_path], which is not under src/, and are
    arguments here. *)
Definition TEMPLATES (readme_template config_template : string)
    : list (string * string) :=
  [("README.md", readme_template);
   (".knowledge_repo_config.yml", config_template)].

(** The loop of [create] over the templates. *)
Fixpoint copy_templates (E : Env) (path : string)
    (templates : list (string * string)) : Mx unit :=
  match templates with
  | [] => retx tt
  | (filename, template) :: rest =>
      let target := join path filename in
      bindx (λ fs, if negb (os.path_exists E fs target)
                   then bindx (shutil_copy.copy E template target)
                              (λ _, retx tt) fs
                   else retx tt fs)
            (λ _, copy_templates E path rest)
  end.

(** [FolderKnowledgeRepository.create(uri)]; what is returned is the
    argument the new [FolderKnowledgeRepository] is made with. *)
Definition create (E : Env) (templates : list (string * string)) (uri : string)
    : Mx string :=
  let uri := if startswith "file://" uri then folder.uri_to_path E uri
             else uri in
  let path := abspath (getcwd E) uri in
  bindx (lift (λ fs, if negb (os.path_exists E fs path)
                     then os.makedirs E path fs else ret tt fs))
        (λ _, bindx (copy_templates E path templates) (λ _, retx path)).

(** The setter of the [path] property, for a repository whose
    [auto_create] is [auto_create]; [os.path.expanduser] is an argument. *)
Definition set_path (E : Env) (expanduser : string → string)
    (templates : list (string * string)) (auto_create : bool) (path : string)
    : Mx FolderKnowledgeRepository :=
  let path := abspath (getcwd E) (expanduser path) in
  λ fs,
    if negb (os.path_exists E fs path) then
      let path := abspath (getcwd E) path in
      if auto_create then
        bindx (create E templates path) (λ _, retx {| _path := path |}) fs
      else (fs, inl (Raised ValueError))
    else (fs, inr {| _path := path |}).

End folder_create.

(** ** [scripts/kr.py] *)

Module kr.

(** [create(format, filename, template)]: a new post from a template.  [pkg]
    is the directory of the package, [Path(__file__).parent.parent]. *)
Definition create (E : Env) (pkg : string) (format filename : string)
    (template : option string) : Mx unit :=
  let src := pkg +:+ "/templates/knowledge_template." +:+ format in
  let src := match template with
             | Some (String _ _ as template) => template
             | _ => src
             end in
  λ fs,
    if negb (os.path_exists E fs src) then (fs, inl (Raised ValueError))
    else if os.path_exists E fs filename then (fs, inl (Raised ValueError))
    else bindx (shutil_copy.copy E src filename) (λ _, retx tt) fs.

End kr.

(** ** Listing the posts: [FolderKnowledgeRepository._dir] *)

Module folder_dir.

Import posixpath.

(** [s.endswith(suf)]: [suf] is [s] or the end of what follows its first
    character. *)
Fixpoint endswith (suf s : string) : bool :=
  String.eqb suf s
  || match s with
     | String _ s' => endswith suf s'
     | EmptyString => false
     end.

(** [l.remove(x)]: without the first element equal to [x]. *)
Fixpoint list_remove (x : string) (l : list string) : list string :=
  match l with
  | [] => []
  | y :: l' => if String.eqb y x then l' else y :: list_remove x l'
  end.

(** The loop [for folder in folders: if folder.startswith("."):
    folders.remove(folder)].  The list is changed while the loop runs over
    it: the loop reads position [i], then [i + 1], of the list as it is
    then, until the position is past the end. *)
Fixpoint remove_hidden_from (fuel i : nat) (folders : list string)
    : list string :=
  match fuel with
  | O => folders
  | S fuel' =>
      match folders !! i with
      | None => folders
      | Some folder =>
          remove_hidden_from fuel' (S i)
            (if startswith "." folder then list_remove folder folders
             else folders)
      end
  end.

Definition remove_hidden (folders : list string) : list string :=
  remove_hidden_from (length folders) 0 folders.

(** [os.walk(top)] for a caller that changes the list of directory names
    of each triple in place, to [visit dirs]: the walk goes on into the
    directories that are left. *)
Fixpoint walk_visiting_rec (fuel : nat) (E : Env) (fs : filesystem)
    (visit : list string → list string) (top : string)
    : list (string * list string * list string) :=
  match fuel with
  | O => []
  | S fuel' =>
      match os.resolve E fs top with
      | inr c =>
          match fs !! c with
          | Some Dir =>
              let entries := os.scandir fs c in
              let dirs := visit (filter os.entry_is_dir entries).*1 in
              let nondirs := (filter (λ e, ¬ os.entry_is_dir e) entries).*1 in
              (top, dirs, nondirs)
                :: concat (map (λ d, walk_visiting_rec fuel' E fs visit
                                       (join top d))
                               dirs)
          | _ => []
          end
      | inl _ => []
      end
  end.

Definition walk_visiting (E : Env) (fs : filesystem)
    (visit : list string → list string) (top : string)
    : list (string * list string * list string) :=
  walk_visiting_rec (S (size fs)) E fs visit top.

(** What one triple of the walk adds to [posts]. *)
Definition posts_of (E : Env) (self : FolderKnowledgeRepository)
    (triple : string * list string * list string) : list (result string) :=
  let '(path, folders, files) := triple in
  let post name :=
    match relpath (getcwd E) path (_path self) with
    | inr rel => inr (join rel name)
    | inl e => inl e
    end in
  map post (List.filter (endswith ".kp") folders)
  ++ map post (List.filter (endswith ".kp") files).

(** [s[n:]] *)
Fixpoint drop_chars (n : nat) (s : string) : string :=
  match n, s with
  | S n', String _ s' => drop_chars n' s'
  | _, _ => s
  end.

(** [post[2:] if post.startswith("./") else post] *)
Definition strip_dot_slash (post : string) : string :=
  if startswith "./" post then drop_chars 2 post else post.

Definition is_published (status : PostStatus) : bool :=
  match status with PUBLISHED => true | _ => false end.

(** [_dir(prefix, statuses)] is a generator; this is the list of what it
    yields.  [posts] is a set: it is kept without duplicates, and [sorted]
    gives one order whatever the order of the set. *)
Definition _dir (E : Env) (self : FolderKnowledgeRepository)
    (prefix : option string) (statuses : list PostStatus)
    : filesystem → result (list string) :=
  λ fs,
    let posts :=
      if existsb is_published statuses then
        sequence
          (flat_map (posts_of E self)
             (walk_visiting E fs remove_hidden
                (join (_path self)
                   match prefix with
                   | Some (String _ _ as prefix) => prefix
                   | _ => ""
                   end)))
      else inr [] in
    match posts with
    | inr posts =>
        inr (merge_sort String.le (map strip_dot_slash (remove_dups posts)))
    | inl e => inl e
    end.

End folder_dir.

(** A folder [_dir] is to visit. *)
Definition visible (folder : string) : bool := negb (startswith "." folder).

(** What the loop over [folders] of [_dir] comes to when the names are all
    different: one pass from left to right, in which a hidden name is
    dropped and the name after a dropped one is kept without a look at it. *)
Fixpoint skip_hidden (folders : list string) : list string :=
  match folders with
  | [] => []
  | folder :: rest =>
      if startswith "." folder then
        match rest with
        | [] => []
        | next :: rest' => next :: skip_hidden rest'
        end
      else folder :: skip_hidden rest
  end.

(** ** More examples *)

Module sample.

(** The templates of the package, installed under [/pkg]. *)
Definition readme_template : string := "/pkg/templates/repository_readme.md".
Definition config_template : string := "/pkg/templates/repository_config.yml".

Definition TEMPLATES : list (string * string) :=
  folder_create.TEMPLATES readme_template config_template.

(** A machine with the package and nothing else. *)
Definition fs_package : filesystem :=
  <[ ["pkg"; "templates"; "knowledge_template.md"]
     := File (list_byte_of_string "---") ]>
  (<[ ["pkg"; "templates"; "repository_config.yml"]
      := File (list_byte_of_string "cfg") ]>
  (<[ ["pkg"; "templates"; "repository_readme.md"]
      := File (list_byte_of_string "# R") ]>
  (<[ ["pkg"; "templates"] := Dir ]>
  (<[ ["pkg"] := Dir ]> (<[ [] := Dir ]> ∅))))).

(** The same after [create("/srv/repo")]. *)
Definition fs_created : filesystem :=
  <[ ["srv"; "repo"; ".knowledge_repo_config.yml"]
     := File (list_byte_of_string "cfg") ]>
  (<[ ["srv"; "repo"; "README.md"] := File (list_byte_of_string "# R") ]>
  (<[ ["srv"; "repo"] := Dir ]> (<[ ["srv"] := Dir ]> fs_package))).

(** A repository with two packed posts, an expanded post, a hidden folder
    and a folder of posts. *)
Definition fs_posts : filesystem :=
  <[ ["repo"; "team"; "b.kp"] := File [] ]>
  (<[ ["repo"; "team"] := Dir ]>
  (<[ ["repo"; ".git"; "x.kp"] := File [] ]>
  (<[ ["repo"; ".git"] := Dir ]>
  (<[ ["repo"; "notes.txt"] := File [] ]>
  (<[ ["repo"; "c.kp"; "knowledge.md"] := File [] ]>
  (<[ ["repo"; "c.kp"] := Dir ]>
  (<[ ["repo"; "a.kp"] := File [] ]> example.fs_empty))))))).

End sample.

Module example_hooks.

(** A repository whose [commit-msg] hook exits with 1. *)
Definition commit_msg_fails : git.Repo :=
  example.git_repo (example.one_hook "/repo/.git/hooks/commit-msg" 1).

(** A hook file at [hp] that signs the message off; no other hook. *)
Definition sign_off_hook (hp : string) : string → git.hook_file :=
  λ p, if String.eqb p hp
       then git.Executable
              (λ _ msg,
                 {| git.returncode := 0; git.stdout := ""; git.stderr := "";
                    git.edited_message :=
                      Some (default "" msg +:+ " (signed off)") |})
       else git.NotExecutable.

Definition commit_msg_signs_off : git.Repo :=
  example.git_repo (sign_off_hook "/repo/.git/hooks/commit-msg").

End example_hooks.

(** ** Deciding equality of results

    The values the model computes can be compared by computation. *)

#[global] Instance byte_eq_decision : EqDecision byte := Byte.byte_eq_dec.

#[global] Instance node_eq_dec : EqDecision node.
Proof. solve_decision. Defined.

#[global] Instance hook_status_eq_dec : EqDecision hook_status.
Proof. solve_decision. Defined.

#[global] Instance exn_eq_dec : EqDecision exn.
Proof. solve_decision. Defined.

#[global] Instance shutil_exn_eq_dec : EqDecision shutil_exn.
Proof. solve_decision. Defined.

#[global] Instance FolderKnowledgeRepository_eq_dec :
  EqDecision FolderKnowledgeRepository.
Proof. solve_decision. Defined.
(** * Properties *)

(** ** The model on some inputs *)

Example join_relative : posixpath.join "/repo" "post.kp" = "/repo/post.kp".
Proof. reflexivity. Qed.
Example join_absolute_second : posixpath.join "/repo" "/etc/x" = "/etc/x".
Proof. reflexivity. Qed.
Example join_trailing : posixpath.join "/repo/" "a" = "/repo/a".
Proof. reflexivity. Qed.
Example split_sep_abs : posixpath.split_sep "/a//b/" = [""; "a"; ""; "b"; ""].
Proof. reflexivity. Qed.
Example dirname_file : posixpath.dirname "/repo/post/img/a.png" = "/repo/post/img".
Proof. reflexivity. Qed.
Example dirname_root : posixpath.dirname "/x" = "/".
Proof. reflexivity. Qed.
Example dirname_slashes : posixpath.dirname "/a//b" = "/a".
Proof. reflexivity. Qed.
Example split_trailing : posixpath.split "/a/b/" = ("/a/b", "").
Proof. reflexivity. Qed.
Example normpath_dots : posixpath.normpath "/a/./b/../c//" = "/a/c".
Proof. reflexivity. Qed.
Example normpath_two_slashes : posixpath.normpath "//a/.." = "//".
Proof. reflexivity. Qed.
Example relpath_below :
  posixpath.relpath "/" "/repo/post/img/a.png" "/repo/post" = inr "img/a.png".
Proof. reflexivity. Qed.
Example relpath_up :
  posixpath.relpath "/" "/repo/x" "/repo/post/img" = inr "../../x".
Proof. reflexivity. Qed.

Example int_spaces_sign_underscore :
  builtins.int (list_byte_of_string "  -1_000 ") = inr (-1000)%Z.
Proof. reflexivity. Qed.
Example int_leading_zeros : builtins.int (list_byte_of_string "+007") = inr 7%Z.
Proof. reflexivity. Qed.
Example int_empty : builtins.int [] = inl ValueError.
Proof. reflexivity. Qed.
Example int_double_underscore :
  builtins.int (list_byte_of_string "1__0") = inl ValueError.
Proof. reflexivity. Qed.
Example encode_negative :
  encoding.encode_int (-45) = list_byte_of_string "-45".
Proof. reflexivity. Qed.

Example makedirs_creates_parents :
  os.makedirs example.E "/repo/a/b" example.fs_empty
  = (<[ ["repo"; "a"; "b"] := Dir ]> (<[ ["repo"; "a"] := Dir ]> example.fs_empty),
     inr tt).
Proof. compute_done. Qed.
Example makedirs_existing :
  (os.makedirs example.E "/repo" example.fs_empty).2 = inl FileExistsError.
Proof. vm_compute. reflexivity. Qed.
Example rmtree_directory :
  shutil.rmtree example.E "/repo/post.kp" example.fs_expanded
  = (example.fs_empty, inr tt).
Proof. compute_done. Qed.
Example walk_expanded :
  os.walk example.E example.fs_expanded "/repo"
  = [("/repo", ["post.kp"], []);
     ("/repo/post.kp", [], ["knowledge.md"; "REVISION"; "UUID"])].
Proof. compute_done. Qed.
Example uri_to_path_file :
  folder.uri_to_path example.E "file:///repo/x" = "/repo/x".
Proof. vm_compute. reflexivity. Qed.

(** A first [add] on a path where there is no post: the directory is made,
    the revision becomes 1 and the UUID is stored. *)
Example new_revision_fresh :
  folder._kp_new_revision example.E example.repo "post.kp" (Some "1b9d6bcd")
    example.fs_empty
  = (<[ ["repo"; "post.kp"; "UUID"] := File (list_byte_of_string "1b9d6bcd") ]>
     (<[ ["repo"; "post.kp"; "REVISION"] := File (list_byte_of_string "1") ]>
     (<[ ["repo"; "post.kp"] := Dir ]> example.fs_empty)),
     inr tt).
Proof. compute_done. Qed.

(** Writing to a packed post leaves a packed post. *)
Example write_packed :
  folder._kp_write_ref example.E example.repo "post.kp" "UUID"
    (list_byte_of_string "1b9d6bcd") example.fs_packed
  = (<[ ["repo"; "post.kp"]
        := File (example.dumps
                   (KnowledgePost._write_ref example.kp_packed "UUID"
                      (list_byte_of_string "1b9d6bcd"))) ]> example.fs_empty,
     inr tt).
Proof. compute_done. Qed.

(** Where no post is stored, an absolute reference name is written outside
    the post and cannot be read back through it. *)
Example absolute_reference_without_post :
  (folder._kp_write_ref example.E example.repo "fresh.kp" "/repo/note"
     [x31] example.fs_empty).2 = inr tt
  ∧ folder._kp_read_ref example.E example.repo "fresh.kp" "/repo/note"
      (folder._kp_write_ref example.E example.repo "fresh.kp" "/repo/note"
         [x31] example.fs_empty).1
    = inl FileNotFoundError.
Proof. split; vm_compute; reflexivity. Qed.

(** ** Strings and paths *)

Lemma append_String (c : ascii) (a b : string) :
  String c a +:+ b = String c (a +:+ b).
Proof. reflexivity. Qed.

Lemma append_empty (b : string) : "" +:+ b = b.
Proof. reflexivity. Qed.

Lemma append_nil_r (s : string) : s +:+ "" = s.
Proof. induction s; rewrite ?append_String, ?append_empty; congruence. Qed.

Lemma append_assoc (a b c : string) : (a +:+ b) +:+ c = a +:+ (b +:+ c).
Proof. induction a; rewrite ?append_String, ?append_empty; congruence. Qed.

Lemma startswith_sep_append (a b : string) :
  posixpath.startswith_sep a = true →
  posixpath.startswith_sep (a +:+ b) = true.
Proof. destruct a; [done|]. by rewrite append_String. Qed.

Lemma isabs_join (a b : string) :
  posixpath.isabs a = true → posixpath.isabs (posixpath.join a b) = true.
Proof.
  unfold posixpath.isabs, posixpath.join. intros Ha.
  destruct (posixpath.startswith_sep b) eqn:Hb; [done|].
  destruct (_ || _); by apply startswith_sep_append.
Qed.

Lemma join_absolute (a b : string) :
  posixpath.isabs b = true → posixpath.join a b = b.
Proof. unfold posixpath.isabs, posixpath.join. by intros ->. Qed.

(** [self.path] is joined in twice by [_kp_read_ref] and [_kp_dir]; for an
    absolute [self.path] the second time changes nothing. *)
Lemma join_join_absolute (a b : string) :
  posixpath.isabs a = true →
  posixpath.join a (posixpath.join a b) = posixpath.join a b.
Proof. intros Ha. by apply join_absolute, isabs_join. Qed.

Lemma join_nonempty (a b : string) : a ≠ "" → posixpath.join a b ≠ "".
Proof.
  unfold posixpath.join. intros Ha.
  destruct (posixpath.startswith_sep b) eqn:Hb; [by destruct b|].
  destruct a; [done|]. destruct (_ || _); by rewrite append_String.
Qed.

Lemma split_sep_nonempty (p : string) : posixpath.split_sep p ≠ [].
Proof.
  destruct p as [|c p]; simpl; [done|].
  destruct (posixpath.is_sep c); [done|]. by destruct (posixpath.split_sep p).
Qed.

Lemma split_sep_append_sep (a b : string) :
  posixpath.split_sep (a +:+ String posixpath.sep b)
  = posixpath.split_sep a ++ posixpath.split_sep b.
Proof.
  induction a as [|c a IH]; rewrite ?append_String, ?append_empty; [done|].
  simpl. rewrite IH. destruct (posixpath.is_sep c); [done|].
  pose proof (split_sep_nonempty a). by destruct (posixpath.split_sep a).
Qed.

Lemma endswith_sep_inv (a : string) :
  posixpath.endswith_sep a = true → ∃ a', a = a' +:+ String posixpath.sep "".
Proof.
  induction a as [|c a IH]; simpl; [done|].
  destruct a as [|c' a].
  - intros Hc. exists "". rewrite append_empty. unfold posixpath.is_sep in Hc.
    apply Ascii.eqb_eq in Hc. by subst.
  - intros [a' Ha]%IH. exists (String c a'). rewrite append_String. by rewrite <- Ha.
Qed.

(** The components of [join P r] for a relative [r]: those of [P], less a
    trailing empty one, and then those of [r]. *)
Lemma split_sep_join_relative (P r : string) :
  posixpath.isabs P = true → posixpath.startswith_sep r = false →
  ∃ pre, posixpath.split_sep (posixpath.join P r) = pre ++ posixpath.split_sep r
         ∧ (posixpath.split_sep P = pre ∨ posixpath.split_sep P = pre ++ [""]).
Proof.
  intros HP Hr. unfold posixpath.join. rewrite Hr.
  destruct P as [|c P]; [done|]. simpl String.eqb. cbn [orb].
  destruct (posixpath.endswith_sep (String c P)) eqn:Hend.
  - apply endswith_sep_inv in Hend as [P' HP'].
    exists (posixpath.split_sep P'). rewrite HP', append_assoc.
    rewrite append_String, append_empty, !split_sep_append_sep. auto.
  - exists (posixpath.split_sep (String c P)).
    change ("/" +:+ r) with (String posixpath.sep r).
    rewrite split_sep_append_sep. auto.
Qed.

(** ** Path resolution *)

Lemma lookup_from_app fs cur xs ys :
  os.lookup_from fs cur (xs ++ ys)
  = match os.lookup_from fs cur xs with
    | inr c => os.lookup_from fs c ys
    | inl e => inl e
    end.
Proof.
  revert cur. induction xs as [|x xs IH]; intros cur; simpl; [done|].
  destruct (fs !! cur) as [[|]|]; auto.
Qed.

Lemma lookup_from_cons_dir fs cur x xs c :
  os.lookup_from fs cur (x :: xs) = inr c → fs !! cur = Some Dir.
Proof. simpl. by destruct (fs !! cur) as [[|]|]. Qed.

Lemma lookup_from_kept fs fs' cur comps c :
  dirs_kept fs fs' →
  os.lookup_from fs cur comps = inr c → os.lookup_from fs' cur comps = inr c.
Proof.
  intros Hk. revert cur. induction comps as [|x xs IH]; intros cur; simpl; [done|].
  destruct (fs !! cur) as [[|]|] eqn:Hcur; try done.
  rewrite (Hk _ Hcur). apply IH.
Qed.

Lemma resolve_kept E fs fs' p c :
  dirs_kept fs fs' → os.resolve E fs p = inr c → os.resolve E fs' p = inr c.
Proof.
  unfold os.resolve. intros Hk. destruct (String.eqb p ""); [done|].
  by apply lookup_from_kept.
Qed.

Lemma resolve_absolute E fs p :
  posixpath.isabs p = true →
  os.resolve E fs p = os.lookup_from fs [] (posixpath.split_sep p).
Proof. unfold os.resolve. intros Hp. rewrite Hp. by destruct p. Qed.

Lemma step_empty c : os.step c "" = c.
Proof. reflexivity. Qed.

(** Resolving [join P r] for a relative [r] is resolving [P] and going on
    from there with the components of [r]. *)
Lemma resolve_join E fs P r :
  posixpath.isabs P = true → posixpath.startswith_sep r = false →
  os.resolve E fs (posixpath.join P r)
  = match os.resolve E fs P with
    | inr cP => os.lookup_from fs cP (posixpath.split_sep r)
    | inl e => inl e
    end.
Proof.
  intros HP Hr.
  rewrite !resolve_absolute by auto using isabs_join.
  destruct (split_sep_join_relative P r HP Hr) as (pre & -> & [->| ->]).
  - apply lookup_from_app.
  - rewrite !lookup_from_app.
    destruct (os.lookup_from fs [] pre) as [e|c1]; [done|].
    pose proof (split_sep_nonempty r) as Hne.
    destruct (posixpath.split_sep r) as [|x xs]; [done|]. simpl.
    rewrite step_empty. destruct (fs !! c1) as [[|]|] eqn:Hc1; try done.
    by rewrite Hc1.
Qed.

Lemma plain_name_relative r : plain_name r → posixpath.startswith_sep r = false.
Proof.
  intros (Hs & Hr & _). destruct r as [|c r]; [done|]. simpl in *.
  destruct (posixpath.is_sep c); [done|done].
Qed.

Lemma step_plain c r : plain_name r → os.step c r = c ++ [r].
Proof.
  intros (_ & H1 & H2 & H3). unfold os.step.
  apply String.eqb_neq in H1, H2, H3. by rewrite H1, H2, H3.
Qed.

Lemma resolve_join_plain E fs P r c :
  posixpath.isabs P = true → plain_name r →
  os.resolve E fs (posixpath.join P r) = inr c →
  ∃ cP, os.resolve E fs P = inr cP ∧ fs !! cP = Some Dir ∧ c = cP ++ [r].
Proof.
  intros HP Hr. rewrite resolve_join by auto using plain_name_relative.
  destruct (os.resolve E fs P) as [e|cP]; [done|].
  destruct Hr as (Hs & Hr). rewrite Hs. simpl.
  destruct (fs !! cP) as [[|]|] eqn:HcP; try done.
  rewrite step_plain by done. intros [= <-]. eauto.
Qed.

(** ** What [stat] sees *)

Lemma isdir_spec E fs p :
  os.isdir E fs p = true ↔ ∃ c, os.resolve E fs p = inr c ∧ fs !! c = Some Dir.
Proof.
  unfold os.isdir, os.stat. split.
  - destruct (os.resolve E fs p) as [e|c]; [done|].
    destruct (fs !! c) as [[|]|] eqn:Hc; try done. eauto.
  - intros (c & -> & ->). done.
Qed.

Lemma isfile_spec E fs p :
  os.isfile E fs p = true
  ↔ ∃ c data, os.resolve E fs p = inr c ∧ fs !! c = Some (File data).
Proof.
  unfold os.isfile, os.stat. split.
  - destruct (os.resolve E fs p) as [e|c]; [done|].
    destruct (fs !! c) as [[|]|] eqn:Hc; try done. eauto.
  - intros (c & data & -> & ->). done.
Qed.

Lemma isdir_not_isfile E fs p :
  os.isdir E fs p = true → os.isfile E fs p = false.
Proof.
  intros (c & Hr & Hc)%isdir_spec. unfold os.isfile, os.stat. by rewrite Hr, Hc.
Qed.

Lemma isfile_not_isdir E fs p :
  os.isfile E fs p = true → os.isdir E fs p = false.
Proof.
  intros (c & d & Hr & Hc)%isfile_spec. unfold os.isdir, os.stat. by rewrite Hr, Hc.
Qed.

Lemma isdir_kept E fs fs' p :
  dirs_kept fs fs' → os.isdir E fs p = true → os.isdir E fs' p = true.
Proof.
  intros Hk (c & Hr & Hc)%isdir_spec. apply isdir_spec.
  exists c. eauto using resolve_kept.
Qed.

Lemma subseteq_dirs_kept (fs fs' : filesystem) : fs ⊆ fs' → dirs_kept fs fs'.
Proof. intros Hsub c Hc. by eapply lookup_weaken. Qed.

Lemma dirs_kept_trans fs1 fs2 fs3 :
  dirs_kept fs1 fs2 → dirs_kept fs2 fs3 → dirs_kept fs1 fs3.
Proof. unfold dirs_kept. auto. Qed.

Lemma insert_file_dirs_kept (fs : filesystem) c data :
  fs !! c ≠ Some Dir → dirs_kept fs (<[c := File data]> fs).
Proof.
  intros Hc c' Hc'. rewrite lookup_insert_ne; [done|]. by intros ->.
Qed.

(** ** Reading and writing files *)

Lemma read_binary_spec E p fs data :
  files.read_binary E p fs = inr data
  ↔ ∃ c, os.resolve E fs p = inr c ∧ fs !! c = Some (File data).
Proof.
  unfold files.read_binary, os.stat. split.
  - destruct (os.resolve E fs p) as [e|c]; [done|].
    destruct (fs !! c) as [[|d]|] eqn:Hc; try done. intros [= ->]. eauto.
  - intros (c & -> & ->). done.
Qed.

Lemma create_inv (c : list string) (n : node) (fs fs' : filesystem) :
  os.create c n fs = (fs', inr tt) → fs' = <[c := n]> fs.
Proof.
  unfold os.create. destruct (fs !! removelast c) as [[|]|]; congruence.
Qed.

Lemma create_subseteq (c : list string) (n : node) (fs : filesystem) :
  fs !! c = None → fs ⊆ (os.create c n fs).1.
Proof.
  unfold os.create. intros Hc.
  destruct (fs !! removelast c) as [[|]|]; simpl; try done.
  by apply insert_subseteq.
Qed.

Lemma write_binary_inv E p data fs fs' :
  files.write_binary E p data fs = (fs', inr tt) →
  ∃ c, os.resolve E fs p = inr c ∧ fs !! c ≠ Some Dir
       ∧ fs' = <[c := File data]> fs.
Proof.
  unfold files.write_binary.
  destruct (os.resolve E fs p) as [e|c]; [done|].
  destruct (fs !! c) as [[|d]|] eqn:Hc; try done.
  - intros [= <-]. exists c. by rewrite Hc.
  - intros ->%create_inv. exists c. by rewrite Hc.
Qed.

Lemma write_binary_dirs_kept E p data fs fs' :
  files.write_binary E p data fs = (fs', inr tt) → dirs_kept fs fs'.
Proof.
  intros (c & _ & Hc & ->)%write_binary_inv. by apply insert_file_dirs_kept.
Qed.

(** What has been written is what is read. *)
Lemma write_binary_read E p data fs fs' :
  files.write_binary E p data fs = (fs', inr tt) →
  files.read_binary E p fs' = inr data.
Proof.
  intros (c & Hr & Hc & ->)%write_binary_inv. apply read_binary_spec.
  exists c. split; [|by rewrite lookup_insert_eq].
  eapply resolve_kept; [|done]. by apply insert_file_dirs_kept.
Qed.

(** ** Making directories only adds directories *)

Lemma mkdir_subseteq (E : Env) (p : string) (fs : filesystem) : fs ⊆ (os.mkdir E p fs).1.
Proof.
  unfold os.mkdir.
  destruct (os.resolve E fs _) as [e|c]; [done|].
  destruct (fs !! c) eqn:Hc; [done|]. by apply create_subseteq.
Qed.

Lemma makedirs_rec_subseteq (fuel : nat) (E : Env) (name : string) (fs : filesystem) :
  fs ⊆ (os.makedirs_rec fuel E name fs).1.
Proof.
  revert name fs. induction fuel as [|fuel IH]; intros name fs; simpl; [done|].
  destruct (posixpath.split name) as [head tail].
  destruct (if String.eqb tail "" then posixpath.split head else (head, tail))
    as [head' tail'].
  destruct (_ && _); [|apply mkdir_subseteq].
  pose proof (IH head' fs) as Hsub.
  destruct (os.makedirs_rec fuel E head' fs) as [fs1 [e|[]]]; simpl in Hsub.
  - destruct e; simpl; try done.
    destruct (String.eqb tail' "."); [done|].
    etrans; [done|]. apply mkdir_subseteq.
  - destruct (String.eqb tail' "."); [done|].
    etrans; [done|]. apply mkdir_subseteq.
Qed.

Lemma makedirs_subseteq (E : Env) (name : string) (fs : filesystem) :
  fs ⊆ (os.makedirs E name fs).1.
Proof. apply makedirs_rec_subseteq. Qed.

(** ** The fuel of [makedirs] is enough *)

Lemma rpartition_sep_length (p h t : string) :
  posixpath.rpartition_sep p = Some (h, t) →
  String.length h + String.length t = String.length p.
Proof.
  revert h t. induction p as [|c p IH]; intros h t; simpl; [done|].
  destruct (posixpath.rpartition_sep p) as [[h' t']|].
  - intros [= <- <-]. simpl. by rewrite (IH h' t').
  - destruct (posixpath.is_sep c); [|done]. intros [= <- <-]. simpl. lia.
Qed.

Lemma rstrip_sep_length (p : string) :
  (String.length (posixpath.rstrip_sep p) ≤ String.length p)%nat.
Proof.
  induction p as [|c p IH]; simpl; [done|].
  destruct (posixpath.rstrip_sep p); [destruct (posixpath.is_sep c)|];
    simpl in *; lia.
Qed.

Lemma split_length (p : string) :
  (String.length (posixpath.split p).1 + String.length (posixpath.split p).2
   ≤ String.length p)%nat.
Proof.
  unfold posixpath.split.
  destruct (posixpath.rpartition_sep p) as [[h t]|] eqn:Hp; simpl.
  - apply rpartition_sep_length in Hp.
    pose proof (rstrip_sep_length h).
    destruct (posixpath.rstrip_sep h); simpl in *; lia.
  - lia.
Qed.

Lemma lookup_from_no_RecursionError (fs : filesystem) (cur comps : list string) :
  os.lookup_from fs cur comps ≠ inl RecursionError.
Proof.
  revert cur. induction comps as [|x xs IH]; intros cur; simpl; [done|].
  destruct (fs !! cur) as [[|]|]; [apply IH|done..].
Qed.

Lemma resolve_no_RecursionError (E : Env) (fs : filesystem) (p : string) :
  os.resolve E fs p ≠ inl RecursionError.
Proof.
  unfold os.resolve. destruct (String.eqb p ""); [done|].
  apply lookup_from_no_RecursionError.
Qed.

Lemma mkdir_no_RecursionError (E : Env) (p : string) (fs : filesystem) :
  (os.mkdir E p fs).2 ≠ inl RecursionError.
Proof.
  unfold os.mkdir.
  match goal with |- context [os.resolve E fs ?q] =>
    pose proof (resolve_no_RecursionError E fs q) as Hr;
    destruct (os.resolve E fs q) as [e|c]
  end; simpl; [by intros [= ->]|].
  destruct (fs !! c); simpl; [done|].
  unfold os.create. by destruct (fs !! removelast c) as [[|]|].
Qed.

(** [makedirs] never runs out of fuel: the head it recurs on is shorter than
    the name. *)
Lemma makedirs_rec_enough_fuel (fuel : nat) (E : Env) :
  ∀ (name : string) (fs : filesystem),
    (String.length name < fuel)%nat →
    (os.makedirs_rec fuel E name fs).2 ≠ inl RecursionError.
Proof.
  induction fuel as [|fuel IH]; intros name fs Hlen; [lia|]. simpl.
  pose proof (split_length name) as Hs.
  destruct (posixpath.split name) as [head tail]. simpl in Hs.
  assert (∀ fs', (os.mkdir E name fs').2 ≠ inl RecursionError) as Hmk
    by (intros fs'; apply mkdir_no_RecursionError).
  assert (∀ head' tail',
            (if String.eqb tail "" then posixpath.split head else (head, tail))
            = (head', tail') →
            tail' ≠ "" →
            (String.length head' < String.length name)%nat) as Hshort.
  { intros head' tail' Heq Htail'.
    destruct (String.eqb tail "") eqn:Ht.
    - pose proof (split_length head) as Hs'. rewrite Heq in Hs'. simpl in Hs'.
      destruct tail'; [done|]. simpl in Hs'. lia.
    - injection Heq as <- <-. destruct tail; [done|]. simpl in Hs. lia. }
  destruct (if String.eqb tail "" then posixpath.split head else (head, tail))
    as [head' tail'].
  destruct (negb (String.eqb head' "")) eqn:Hh; simpl; [|apply Hmk].
  destruct (negb (String.eqb tail' "")) eqn:Ht; simpl; [|apply Hmk].
  destruct (negb (os.path_exists E fs head')); simpl; [|apply Hmk].
  assert (tail' ≠ "") as Htail'
    by (apply negb_true_iff, String.eqb_neq in Ht; done).
  specialize (IH head' fs ltac:(specialize (Hshort _ _ eq_refl Htail'); lia)).
  destruct (os.makedirs_rec fuel E head' fs) as [fs1 [e|[]]]; simpl in IH.
  - destruct e; try done; destruct (String.eqb tail' "."); try done; apply Hmk.
  - destruct (String.eqb tail' "."); [done|apply Hmk].
Qed.

Lemma makedirs_enough_fuel (E : Env) (name : string) (fs : filesystem) :
  (os.makedirs E name fs).2 ≠ inl RecursionError.
Proof. apply makedirs_rec_enough_fuel. lia. Qed.

(** ** [int] reads back what [encode] writes *)

Lemma all_chars_impl (f g : ascii → bool) (s : string) :
  (∀ c, f c = true → g c = true) →
  all_chars f s = true → all_chars g s = true.
Proof.
  intros Hfg. induction s as [|c s IH]; simpl; [done|].
  intros [Hc Hs]%andb_true_iff. apply andb_true_iff. auto.
Qed.

Lemma digit_not_space (c : ascii) :
  builtins.is_digit c = true → negb (builtins.is_space c) = true.
Proof. by destruct c as [[] [] [] [] [] [] [] []]. Qed.

Lemma digit_not_underscore (c : ascii) :
  builtins.is_digit c = true → Ascii.eqb c "_" = false.
Proof. by destruct c as [[] [] [] [] [] [] [] []]. Qed.

Lemma split_sign_digit (c : ascii) (s : string) :
  builtins.is_digit c = true →
  builtins.split_sign (String c s) = (false, String c s).
Proof. by destruct c as [[] [] [] [] [] [] [] []]. Qed.

Lemma lstrip_no_space (c : ascii) (s : string) :
  negb (builtins.is_space c) = true →
  builtins.lstrip (String c s) = String c s.
Proof. simpl. by intros ->%negb_true_iff. Qed.

Lemma rstrip_no_space (s : string) :
  all_chars (λ c, negb (builtins.is_space c)) s = true →
  builtins.rstrip s = s.
Proof.
  induction s as [|c s IH]; simpl; [done|].
  intros [Hc%negb_true_iff Hs]%andb_true_iff. rewrite IH, Hc by done.
  by destruct s.
Qed.

Lemma drop_underscores_digits (after_digit : bool) (s : string) :
  all_chars builtins.is_digit s = true →
  builtins.drop_underscores after_digit s = Some s.
Proof.
  revert after_digit. induction s as [|c s IH]; intros b; simpl; [done|].
  intros [Hc Hs]%andb_true_iff.
  by rewrite (digit_not_underscore c Hc), IH.
Qed.

Lemma string_of_uint_digits (d : Decimal.uint) :
  all_chars builtins.is_digit (NilZero.string_of_uint d) = true.
Proof.
  assert (∀ d, all_chars builtins.is_digit (NilEmpty.string_of_uint d) = true)
    as Hd by (intros d'; induction d'; simpl; auto).
  destruct d; try apply Hd. done.
Qed.

Lemma string_of_uint_nonempty (d : Decimal.uint) :
  ∃ c s, NilZero.string_of_uint d = String c s.
Proof. destruct d; simpl; eauto. Qed.

(** The digits alone are read as the number they spell. *)
Lemma int_digits (d : Decimal.uint) (negative : bool) :
  d ≠ Decimal.Nil →
  match builtins.drop_underscores false (NilZero.string_of_uint d)
        ≫= NilZero.uint_of_string with
  | Some d' => inr (if negative then - Z.of_uint d' else Z.of_uint d')%Z
  | None => inl ValueError
  end
  = inr (if negative then - Z.of_uint d else Z.of_uint d)%Z.
Proof.
  intros Hd.
  rewrite drop_underscores_digits by apply string_of_uint_digits.
  simpl. by rewrite NilZero.usu.
Qed.

Lemma to_uint_nonnil (p : positive) : Pos.to_uint p ≠ Decimal.Nil.
Proof.
  intros Hp. pose proof (DecimalPos.Unsigned.of_to p) as H.
  rewrite Hp in H. done.
Qed.

Lemma int_encode (n : Z) : builtins.int (encoding.encode_int n) = inr n.
Proof.
  unfold builtins.int, encoding.encode_int, builtins.strip.
  rewrite string_of_list_byte_of_string.
  pose proof (DecimalZ.of_to n) as Hn.
  destruct n as [|p|p]; [done| |]; simpl Z.to_int in *; simpl Z.of_int in Hn.
  - change (NilZero.string_of_int (Decimal.Pos (Pos.to_uint p)))
      with (NilZero.string_of_uint (Pos.to_uint p)).
    pose proof (string_of_uint_digits (Pos.to_uint p)) as Hdig.
    destruct (string_of_uint_nonempty (Pos.to_uint p)) as (c & s & Hs).
    assert (all_chars (λ c, negb (builtins.is_space c))
              (NilZero.string_of_uint (Pos.to_uint p)) = true) as Hsp
      by (eapply all_chars_impl; [apply digit_not_space|done]).
    rewrite Hs in Hdig, Hsp. simpl in Hdig, Hsp.
    apply andb_true_iff in Hdig as [Hc _], Hsp as [Hc' _].
    rewrite Hs, lstrip_no_space by done. rewrite <- Hs.
    rewrite rstrip_no_space
      by (eapply all_chars_impl; [apply digit_not_space|apply string_of_uint_digits]).
    rewrite Hs at 1. rewrite split_sign_digit by done. rewrite <- Hs.
    rewrite (int_digits _ false) by apply to_uint_nonnil. by rewrite Hn.
  - change (NilZero.string_of_int (Decimal.Neg (Pos.to_uint p)))
      with (String "-" (NilZero.string_of_uint (Pos.to_uint p))).
    rewrite lstrip_no_space by done.
    rewrite rstrip_no_space.
    2:{ simpl. eapply all_chars_impl; [apply digit_not_space|apply string_of_uint_digits]. }
    change (builtins.split_sign (String "-" ?s)) with (true, s).
    cbv beta iota zeta.
    rewrite (int_digits _ true) by apply to_uint_nonnil. by rewrite Hn.
Qed.

(** ** The reference store of the folder backend *)

Section ReferenceStore.

Context (E : Env) (self : FolderKnowledgeRepository) (path : string).

(** Where the post is. *)
Local Abbreviation P := (posixpath.join (_path self) path).

(** [self.path] is absolute: the setter of the property stores
    [os.path.abspath(os.path.expanduser(path))]. *)
Hypothesis path_absolute : posixpath.isabs (_path self) = true.

Hypothesis roundtrip : kp_roundtrip E.

Lemma read_binary_isfile p fs data :
  files.read_binary E p fs = inr data → os.isfile E fs p = true.
Proof. intros (c & ? & ?)%read_binary_spec. apply isfile_spec. eauto. Qed.

Lemma from_file_isfile p fs kp :
  KnowledgePost.from_file E p fs = inr kp → os.isfile E fs p = true.
Proof.
  unfold KnowledgePost.from_file.
  destruct (files.read_binary E p fs) as [e|raw] eqn:Hraw; [done|].
  intros _. by eapply read_binary_isfile.
Qed.

(** A post that can be read from is stored in one of the two forms. *)
Lemma kp_read_ref_stored reference fs data :
  folder._kp_read_ref E self path reference fs = inr data →
  os.isdir E fs P = true
  ∨ os.isfile E fs P = true.
Proof.
  unfold folder._kp_read_ref.
  destruct (os.isdir E fs _) eqn:Hdir; [auto|].
  destruct (KnowledgePost.from_file E _ fs) as [e|kp] eqn:Hkp; [done|].
  intros _. right. by eapply from_file_isfile.
Qed.

(** The step of [_kp_write_ref] that makes the directory of the reference
    only adds directories, also when it fails. *)
Lemma ensure_dir_subseteq (ref_dir : string) (fs : filesystem) :
  fs ⊆ (if negb (os.path_exists E fs ref_dir)
        then os.makedirs E ref_dir fs else ret tt fs).1.
Proof. destruct (negb _); [apply makedirs_subseteq|done]. Qed.

(** Writing to a packed post: the archive is read, changed and written. *)
Lemma kp_write_ref_packed reference data fs fs' :
  os.isfile E fs P = true →
  folder._kp_write_ref E self path reference data fs = (fs', inr tt) →
  ∃ kp, KnowledgePost.from_file E P fs = inr kp
        ∧ os.isdir E fs' P = false
        ∧ KnowledgePost.from_file E P fs'
          = inr (KnowledgePost._write_ref kp reference data).
Proof.
  unfold folder._kp_write_ref.
  intros ->. unfold bind, attempt, KnowledgePost.to_file.
  destruct (KnowledgePost.from_file E P fs) as [e|kp] eqn:Hkp; [done|].
  intros Hw. exists kp. split; [done|].
  pose proof (write_binary_read _ _ _ _ _ Hw) as Hread.
  split.
  - by eapply isfile_not_isdir, read_binary_isfile.
  - unfold KnowledgePost.from_file. by rewrite Hread, roundtrip.
Qed.

(** A packed post that can be opened can be written to. *)
Lemma kp_write_ref_packed_returns reference data fs kp :
  KnowledgePost.from_file E P fs = inr kp →
  ∃ fs', folder._kp_write_ref E self path reference data fs = (fs', inr tt).
Proof.
  intros Hkp. pose proof (from_file_isfile _ _ _ Hkp) as Hfile.
  unfold folder._kp_write_ref. rewrite Hfile.
  unfold bind, attempt. rewrite Hkp.
  unfold KnowledgePost.to_file, files.write_binary.
  apply isfile_spec in Hfile as (c & old & -> & ->). eauto.
Qed.

(** Writing to an expanded post, or to a path where there is none. *)
Lemma kp_write_ref_expanded reference data fs fs' :
  os.isfile E fs P = false →
  folder._kp_write_ref E self path reference data fs = (fs', inr tt) →
  ∃ fs1, fs ⊆ fs1
         ∧ files.write_binary E
             (posixpath.join P reference)
             data fs1 = (fs', inr tt).
Proof.
  unfold folder._kp_write_ref.
  intros ->. unfold bind.
  pose proof (ensure_dir_subseteq
                (posixpath.dirname (posixpath.join P reference)) fs) as Hsub.
  destruct (if negb _ then _ else _) as [fs1 [e|[]]]; [done|].
  eauto.
Qed.

(** Round trip: what [_kp_write_ref] has written is what [_kp_read_ref]
    returns, for a post in either form, and for a relative reference name
    also where there was no post. *)
Lemma kp_write_ref_read reference data fs fs' :
  os.isdir E fs P = true
  ∨ os.isfile E fs P = true
  ∨ posixpath.startswith_sep reference = false →
  folder._kp_write_ref E self path reference data fs = (fs', inr tt) →
  folder._kp_read_ref E self path reference fs' = inr data.
Proof.
  intros Hpost Hw. unfold folder._kp_read_ref.
  rewrite join_join_absolute by done.
  destruct (os.isfile E fs P) eqn:Hfile.
  - destruct (kp_write_ref_packed _ _ _ _ Hfile Hw) as (kp & _ & -> & ->).
    unfold KnowledgePost._read_ref, KnowledgePost._write_ref. simpl.
    by rewrite lookup_insert_eq.
  - destruct (kp_write_ref_expanded _ _ _ _ Hfile Hw) as (fs1 & Hsub & Hw1).
    assert (os.isdir E fs' P = true) as ->.
    { eapply isdir_kept; [by eapply write_binary_dirs_kept|].
      destruct Hpost as [Hdir|[?|Hrel]]; [|congruence|].
      - eapply isdir_kept; [by apply subseteq_dirs_kept|done].
      - apply write_binary_inv in Hw1 as (c & Hr & _).
        rewrite resolve_join in Hr by (done || by apply isabs_join).
        destruct (os.resolve E fs1 P) as [e|cP] eqn:HP; [done|].
        apply isdir_spec. exists cP. split; [done|].
        pose proof (split_sep_nonempty reference).
        destruct (posixpath.split_sep reference); [done|].
        by eapply lookup_from_cons_dir. }
    by eapply write_binary_read.
Qed.

(** Frame: writing one plain reference leaves another one as it was. *)
Lemma kp_write_ref_other reference data other fs fs' old :
  plain_name reference → plain_name other → reference ≠ other →
  folder._kp_write_ref E self path reference data fs = (fs', inr tt) →
  folder._kp_read_ref E self path other fs = inr old →
  folder._kp_read_ref E self path other fs' = inr old.
Proof.
  intros Href Hother Hne Hw Hold.
  pose proof (kp_read_ref_stored _ _ _ Hold) as Hstored.
  revert Hold. unfold folder._kp_read_ref.
  rewrite join_join_absolute by done.
  assert (posixpath.isabs P = true) as HP by by apply isabs_join.
  destruct (os.isfile E fs P) eqn:Hfile.
  - destruct (kp_write_ref_packed _ _ _ _ Hfile Hw) as (kp & Hkp & -> & ->).
    rewrite (isfile_not_isdir _ _ _ Hfile), Hkp.
    unfold KnowledgePost._read_ref, KnowledgePost._write_ref. simpl.
    by rewrite lookup_insert_ne.
  - destruct Hstored as [Hdir|?]; [|congruence]. rewrite Hdir.
    destruct (kp_write_ref_expanded _ _ _ _ Hfile Hw) as (fs1 & Hsub & Hw1).
    pose proof (write_binary_dirs_kept _ _ _ _ _ Hw1) as Hkept.
    assert (os.isdir E fs' P = true) as ->.
    { eapply isdir_kept; [done|].
      eapply isdir_kept; [by apply subseteq_dirs_kept|done]. }
    intros (c1 & Hr1 & Hc1)%read_binary_spec. apply read_binary_spec.
    eapply resolve_kept in Hr1; [|by apply subseteq_dirs_kept].
    eapply lookup_weaken in Hc1; [|done].
    apply write_binary_inv in Hw1 as (c2 & Hr2 & _ & ->).
    exists c1. split; [by eapply resolve_kept|].
    apply resolve_join_plain in Hr1 as (cP & HcP & _ & ->); [|done..].
    apply resolve_join_plain in Hr2 as (cP' & HcP' & _ & ->); [|done..].
    rewrite lookup_insert_ne; [done|].
    intros Heq. apply app_inj_tail in Heq as [_ ?]. done.
Qed.

End ReferenceStore.

(** ** The getters of the reserved references *)

Lemma kp_uuid_eq (E : Env) (self : FolderKnowledgeRepository) (path : string)
    (fs : filesystem) :
  folder._kp_uuid E self path fs
  = (fs, inr match folder._kp_read_ref E self path "UUID" fs with
             | inr data => Some data
             | inl _ => None
             end).
Proof.
  unfold folder._kp_uuid, try_except, bind, attempt, ret.
  by destruct (folder._kp_read_ref E self path "UUID" fs).
Qed.

Lemma kp_get_revision_eq (E : Env) (self : FolderKnowledgeRepository)
    (path : string) (fs : filesystem) :
  folder._kp_get_revision E self path fs
  = (fs, inr match folder._kp_read_ref E self path "REVISION" fs with
             | inr data => match builtins.int data with
                           | inr n => n
                           | inl _ => 0%Z
                           end
             | inl _ => 0%Z
             end).
Proof.
  unfold folder._kp_get_revision, try_except, bind, attempt, ret.
  destruct (folder._kp_read_ref E self path "REVISION" fs) as [e|data]; [done|].
  by destruct (builtins.int data).
Qed.

Lemma plain_REVISION : plain_name "REVISION".
Proof. by repeat split. Qed.

Lemma plain_UUID : plain_name "UUID".
Proof. by repeat split. Qed.

Lemma example_roundtrip : kp_roundtrip example.E.
Proof.
  intros kp. simpl. unfold example.loads, example.dumps.
  rewrite string_of_list_byte_of_string, NilEmpty.usu. simpl.
  rewrite DecimalPos.Unsigned.of_to. apply decode_encode.
Qed.

Section Revisions.

Context (E : Env) (self : FolderKnowledgeRepository) (path : string).
Hypothesis path_absolute : posixpath.isabs (_path self) = true.
Hypothesis roundtrip : kp_roundtrip E.

(** What one call of [_kp_new_revision] has done when it returns. *)
Lemma kp_new_revision_inv uuid fs fs' :
  folder._kp_new_revision E self path uuid fs = (fs', inr tt) →
  ∃ r fs1,
    folder._kp_get_revision E self path fs = (fs, inr r)
    ∧ folder._kp_write_ref E self path "REVISION"
        (encoding.encode_int (r + 1)) fs = (fs1, inr tt)
    ∧ if builtins.truthy uuid then
        folder._kp_write_ref E self path "UUID"
          (encoding.encode_str (default "" uuid)) fs1 = (fs', inr tt)
      else fs' = fs1.
Proof.
  unfold folder._kp_new_revision, bind. rewrite kp_get_revision_eq.
  match goal with |- context [encoding.encode_int (?r + 1)] => set (rev := r) end.
  destruct (folder._kp_write_ref E self path "REVISION" _ fs)
    as [fs1 [e|[]]] eqn:Hw1; [done|].
  intros Hw2. exists rev, fs1. repeat split; [done|].
  destruct uuid as [[|c u]|]; simpl; unfold ret in Hw2; congruence.
Qed.

Lemma kp_new_revision_increments uuid fs fs' :
  folder._kp_new_revision E self path uuid fs = (fs', inr tt) →
  ∃ r, folder._kp_get_revision E self path fs = (fs, inr r)
       ∧ folder._kp_get_revision E self path fs' = (fs', inr (r + 1)%Z).
Proof.
  intros (r & fs1 & Hr & Hw1 & Hw2)%kp_new_revision_inv.
  exists r. split; [done|].
  assert (folder._kp_read_ref E self path "REVISION" fs1
          = inr (encoding.encode_int (r + 1))) as Hread
    by (eapply kp_write_ref_read; eauto).
  rewrite kp_get_revision_eq.
  destruct (builtins.truthy uuid).
  - rewrite (kp_write_ref_other E self path path_absolute roundtrip
               "UUID" _ "REVISION" fs1 fs' _ plain_UUID plain_REVISION
               ltac:(done) Hw2 Hread).
    by rewrite int_encode.
  - subst fs'. by rewrite Hread, int_encode.
Qed.

Lemma kp_new_revision_writes_uuid uuid fs fs' :
  builtins.truthy (Some uuid) = true →
  folder._kp_new_revision E self path (Some uuid) fs = (fs', inr tt) →
  folder._kp_uuid E self path fs'
  = (fs', inr (Some (encoding.encode_str uuid))).
Proof.
  intros Hu (r & fs1 & _ & _ & Hw2)%kp_new_revision_inv.
  rewrite Hu in Hw2. simpl in Hw2.
  rewrite kp_uuid_eq. by erewrite kp_write_ref_read; eauto.
Qed.

Lemma kp_new_revision_keeps_uuid u fs fs' :
  folder._kp_uuid E self path fs = (fs, inr (Some u)) →
  folder._kp_new_revision E self path None fs = (fs', inr tt) →
  folder._kp_uuid E self path fs' = (fs', inr (Some u)).
Proof.
  rewrite !kp_uuid_eq. intros Hu (r & fs1 & _ & Hw1 & ->)%kp_new_revision_inv.
  destruct (folder._kp_read_ref E self path "UUID" fs) as [e|old] eqn:Hold;
    [done|].
  rewrite (kp_write_ref_other E self path path_absolute roundtrip
             "REVISION" _ "UUID" fs fs1 _ plain_REVISION plain_UUID
             ltac:(done) Hw1 Hold).
  congruence.
Qed.

Lemma new_revisions_count uuids : ∀ r fs fs',
  folder._kp_get_revision E self path fs = (fs, inr r) →
  new_revisions E self path uuids fs = (fs', inr tt) →
  folder._kp_get_revision E self path fs'
  = (fs', inr (r + Z.of_nat (length uuids))%Z).
Proof.
  induction uuids as [|uuid uuids IH]; intros r fs fs' Hr; simpl.
  - unfold ret. intros [= <-]. by rewrite Z.add_0_r.
  - unfold bind.
    destruct (folder._kp_new_revision E self path uuid fs)
      as [fs1 [e|[]]] eqn:Hnew; [done|].
    apply kp_new_revision_increments in Hnew as (r' & Hr' & Hr1).
    intros Hrest. rewrite (IH _ _ _ Hr1 Hrest). do 2 f_equal.
    assert (r' = r) by congruence. lia.
Qed.

End Revisions.

(** ** The reference store: round trip *)

(** C1.  For a post stored at [path] in the expanded form (a directory) or
    in the packed form (a single file), and for every reference name and
    byte string: when [_kp_write_ref] has written the reference,
    [_kp_read_ref] returns exactly the bytes written.  The statement is the
    same for the two forms. *)
Theorem kp_write_then_read (E : Env) (self : FolderKnowledgeRepository)
    (path reference : string) (data : bytes) (fs fs' : filesystem) :
  posixpath.isabs (_path self) = true →
  kp_roundtrip E →
  os.isdir E fs (posixpath.join (_path self) path) = true
  ∨ os.isfile E fs (posixpath.join (_path self) path) = true →
  folder._kp_write_ref E self path reference data fs = (fs', inr tt) →
  folder._kp_read_ref E self path reference fs' = inr data.
Proof.
  intros Habs Hrt Hstored. apply kp_write_ref_read; [done..|].
  destruct Hstored; auto.
Qed.

Lemma kp_write_then_read_witness :
  folder._kp_read_ref example.E example.repo "post.kp" "img/a.png"
    (<[ ["repo"; "post.kp"; "img"; "a.png"] := File [x89; x50] ]>
       (<[ ["repo"; "post.kp"; "img"] := Dir ]> example.fs_expanded))
  = inr [x89; x50]
  ∧ folder._kp_read_ref example.E example.repo "post.kp" "img/a.png"
      (folder._kp_write_ref example.E example.repo "post.kp" "img/a.png"
         [x89; x50] example.fs_packed).1
    = inr [x89; x50].
Proof.
  split.
  - apply (kp_write_then_read example.E example.repo "post.kp" "img/a.png"
             [x89; x50] example.fs_expanded).
    + reflexivity.
    + exact example_roundtrip.
    + left. vm_compute. reflexivity.
    + vm_compute. reflexivity.
  - apply (kp_write_then_read example.E example.repo "post.kp" "img/a.png"
             [x89; x50] example.fs_packed).
    + reflexivity.
    + exact example_roundtrip.
    + right. vm_compute. reflexivity.
    + vm_compute. reflexivity.
Defined.

(** ** The revision counter and the UUID *)

(** C2.  The revision of a post is 0 when no [REVISION] reference can be
    read; a call of [_kp_new_revision] that returns has raised the stored
    revision by exactly one, and has written the [UUID] reference when a
    uuid was given; so after [n] calls on a post without a [REVISION]
    reference the revision read back is [n]; and a call without a uuid
    leaves a [UUID] that was set as it is. *)
Theorem kp_revision_counter (E : Env) (self : FolderKnowledgeRepository)
    (path : string) :
  posixpath.isabs (_path self) = true →
  kp_roundtrip E →
  (∀ fs e,
     folder._kp_read_ref E self path "REVISION" fs = inl e →
     folder._kp_get_revision E self path fs = (fs, inr 0%Z))
  ∧ (∀ uuid fs fs',
       folder._kp_new_revision E self path uuid fs = (fs', inr tt) →
       ∃ r, folder._kp_get_revision E self path fs = (fs, inr r)
            ∧ folder._kp_get_revision E self path fs' = (fs', inr (r + 1)%Z))
  ∧ (∀ uuid fs fs',
       builtins.truthy (Some uuid) = true →
       folder._kp_new_revision E self path (Some uuid) fs = (fs', inr tt) →
       folder._kp_uuid E self path fs'
       = (fs', inr (Some (encoding.encode_str uuid))))
  ∧ (∀ uuids fs fs' e,
       folder._kp_read_ref E self path "REVISION" fs = inl e →
       new_revisions E self path uuids fs = (fs', inr tt) →
       folder._kp_get_revision E self path fs'
       = (fs', inr (Z.of_nat (length uuids))))
  ∧ (∀ u fs fs',
       folder._kp_uuid E self path fs = (fs, inr (Some u)) →
       folder._kp_new_revision E self path None fs = (fs', inr tt) →
       folder._kp_uuid E self path fs' = (fs', inr (Some u))).
Proof.
  intros Habs Hrt.
  assert (∀ fs e,
            folder._kp_read_ref E self path "REVISION" fs = inl e →
            folder._kp_get_revision E self path fs = (fs, inr 0%Z)) as Hzero.
  { intros fs e He. by rewrite kp_get_revision_eq, He. }
  repeat split.
  - exact Hzero.
  - intros uuid fs fs'. by apply kp_new_revision_increments.
  - intros uuid fs fs'. by apply kp_new_revision_writes_uuid.
  - intros uuids fs fs' e He Hnew.
    by rewrite (new_revisions_count E self path Habs Hrt uuids 0 fs fs'
                  (Hzero fs e He) Hnew).
  - intros u fs fs'. by apply kp_new_revision_keeps_uuid.
Qed.

Lemma kp_revision_counter_witness :
  let fs2 := (new_revisions example.E example.repo "projects/new.kp"
                [Some "1b9d6bcd"; None] example.fs_empty).1 in
  folder._kp_get_revision example.E example.repo "projects/new.kp" fs2
  = (fs2, inr 2%Z).
Proof.
  intros fs2.
  destruct (kp_revision_counter example.E example.repo "projects/new.kp"
              eq_refl example_roundtrip) as (_ & _ & _ & Hcount & _).
  apply (Hcount [Some "1b9d6bcd"; None] example.fs_empty fs2
           FileNotFoundError).
  - vm_compute. reflexivity.
  - vm_compute. reflexivity.
Defined.

(** ** Status *)

(** C3.  Whatever the post path and the revision asked for, the status
    query of the folder backend answers [PUBLISHED]; it does not look at the
    repository, so this is the status right after an [add] too. *)
Theorem kp_status_published (self : FolderKnowledgeRepository) (path : string)
    (revision : option Z) (detailed : bool) (branch : option string) :
  folder._kp_status self path revision detailed branch = PUBLISHED.
Proof. reflexivity. Qed.

(** ** Enumerating references *)

(** The directory names [os.walk] yields are never empty when its argument
    is not. *)
Lemma walk_rec_dirpath_nonempty (fuel : nat) (E : Env) (fs : filesystem) :
  ∀ top t, top ≠ "" → In t (os.walk_rec fuel E fs top) → t.1.1 ≠ "".
Proof.
  induction fuel as [|fuel IH]; intros top t Htop; simpl; [done|].
  destruct (os.resolve E fs top) as [e|c]; [done|].
  destruct (fs !! c) as [[|]|]; try done.
  intros [<-|Hin]; [done|].
  apply in_concat in Hin as (l & Hl & Ht).
  apply in_map_iff in Hl as (d & <- & _).
  eapply IH; [|done]. by apply join_nonempty.
Qed.

(** So the test [dirpath == "" and filename == "REVISION"] of [_kp_dir]
    never holds: nothing is left out of what the walk finds. *)
Lemma kp_dir_names_all (E : Env) (self : FolderKnowledgeRepository)
    (path dirpath : string) (dirnames filenames : list string) :
  dirpath ≠ "" →
  folder._kp_dir_names E self path (dirpath, dirnames, filenames)
  = map (λ filename,
           posixpath.relpath (getcwd E) (posixpath.join dirpath filename)
             (posixpath.join (_path self) path))
        filenames.
Proof.
  intros Hd%String.eqb_neq. unfold folder._kp_dir_names. rewrite Hd. simpl.
  induction filenames as [|f fs IH]; simpl; [done|]. by rewrite IH.
Qed.


(** ** [relpath] of an entry of a directory *)

Lemma split_sep_no_sep (p : string) : Forall no_sep (posixpath.split_sep p).
Proof.
  induction p as [|c p IH]; simpl; [by repeat constructor|].
  destruct (posixpath.is_sep c) eqn:Hc; [by constructor|].
  destruct (posixpath.split_sep p) as [|w ws].
  - repeat constructor. unfold no_sep. simpl. by rewrite Hc.
  - inversion_clear IH as [|?? Hw Hws]. constructor; [|done].
    unfold no_sep in *. simpl. by rewrite Hc.
Qed.

Lemma split_sep_id (s : string) : no_sep s → posixpath.split_sep s = [s].
Proof.
  unfold no_sep. induction s as [|c s IH]; simpl; [done|].
  intros [Hc%negb_true_iff Hs]%andb_true_iff. by rewrite Hc, IH.
Qed.

Lemma plain_name_no_sep (r : string) : plain_name r → no_sep r.
Proof.
  intros (Hs & _). pose proof (split_sep_no_sep r) as H.
  rewrite Hs in H. by inversion H.
Qed.

Lemma plain_name_good (r : string) : plain_name r → good_comp r.
Proof. intros Hr. split; [apply Hr|by apply plain_name_no_sep]. Qed.

Lemma Forall_removelast {A} (P : A → Prop) (l : list A) :
  Forall P l → Forall P (removelast l).
Proof.
  induction 1 as [|x l Hx Hl IH]; simpl; [done|].
  destruct l; [done|]. by constructor.
Qed.

Lemma normpath_step_good (k : nat) (acc : list string) (c : string) :
  Forall good_comp acc → no_sep c →
  Forall good_comp (posixpath.normpath_step k acc c).
Proof.
  intros Hacc Hc. unfold posixpath.normpath_step.
  destruct (String.eqb c "") eqn:Hc0; [done|]. apply String.eqb_neq in Hc0.
  destruct (String.eqb c "."); [done|]. simpl.
  destruct (_ || _).
  - apply Forall_app. split; [done|]. by repeat constructor.
  - by apply Forall_removelast.
Qed.

Lemma normpath_fold_good (k : nat) (comps acc : list string) :
  Forall good_comp acc → Forall no_sep comps →
  Forall good_comp (fold_left (posixpath.normpath_step k) comps acc).
Proof.
  revert acc. induction comps as [|c comps IH]; intros acc Hacc Hc; simpl;
    [done|].
  inversion_clear Hc. apply IH; [|done]. by apply normpath_step_good.
Qed.

(** Below the root the number of leading slashes makes no difference. *)
Lemma normpath_fold_absolute (k : nat) (comps acc : list string) :
  k ≠ 0 →
  fold_left (posixpath.normpath_step k) comps acc
  = fold_left (posixpath.normpath_step 1) comps acc.
Proof.
  intros Hk. revert acc. induction comps as [|c comps IH]; intros acc; simpl;
    [done|].
  rewrite IH. f_equal. unfold posixpath.normpath_step.
  by destruct k.
Qed.

Lemma split_sep_join_sep (comps : list string) :
  comps ≠ [] → Forall no_sep comps →
  posixpath.split_sep (posixpath.join_sep comps) = comps.
Proof.
  induction comps as [|c comps IH]; [done|]. intros _ Hc.
  inversion_clear Hc as [|?? Hc1 Hc2].
  destruct comps as [|c' comps].
  - simpl. by apply split_sep_id.
  - change (posixpath.join_sep (c :: c' :: comps))
      with (c +:+ String posixpath.sep (posixpath.join_sep (c' :: comps))).
    rewrite split_sep_append_sep, split_sep_id, IH by done. done.
Qed.

Lemma nonempty_comps_slash (s : string) :
  posixpath.nonempty_comps (String posixpath.sep s)
  = posixpath.nonempty_comps s.
Proof.
  unfold posixpath.nonempty_comps. simpl. by rewrite filter_cons_False by auto.
Qed.

Lemma filter_good (comps : list string) :
  Forall good_comp comps → filter (λ x, x ≠ "") comps = comps.
Proof.
  induction 1 as [|c comps [Hc _] _ IH]; [done|].
  by rewrite filter_cons_True, IH.
Qed.

Lemma nonempty_comps_join_sep (comps : list string) :
  Forall good_comp comps →
  posixpath.nonempty_comps (posixpath.join_sep comps) = comps.
Proof.
  intros Hgood. unfold posixpath.nonempty_comps.
  destruct comps as [|c comps]; [done|].
  rewrite split_sep_join_sep; [by apply filter_good|done|].
  eapply Forall_impl; [done|]. by intros ? [_ ?].
Qed.

(** The components of a normalised absolute path. *)
Lemma normpath_absolute (p : string) :
  posixpath.isabs p = true →
  posixpath.nonempty_comps (posixpath.normpath p)
  = fold_left (posixpath.normpath_step 1) (posixpath.split_sep p) [].
Proof.
  intros Hp. destruct p as [|c p]; [done|].
  assert (posixpath.is_sep c = true) as Hc by exact Hp.
  assert (Forall good_comp
            (fold_left (posixpath.normpath_step 1)
                       (posixpath.split_sep (String c p)) [])) as Hgood
    by (apply normpath_fold_good; [done|apply split_sep_no_sep]).
  unfold posixpath.normpath.
  change (String.eqb (String c p) "") with false. cbv iota.
  change (posixpath.startswith_sep (String c p)) with (posixpath.is_sep c).
  rewrite Hc. cbv zeta.
  destruct (_ && _).
  - change (String.concat "" (replicate 2 "/") +:+ ?s)
      with (String posixpath.sep (String posixpath.sep s)).
    change (String.eqb (String ?a ?b) "") with false. cbv iota.
    rewrite nonempty_comps_slash. rewrite nonempty_comps_slash.
    rewrite (normpath_fold_absolute 2) by done.
    by apply nonempty_comps_join_sep.
  - change (String.concat "" (replicate 1 "/") +:+ ?s)
      with (String posixpath.sep s).
    change (String.eqb (String ?a ?b) "") with false. cbv iota.
    rewrite nonempty_comps_slash.
    by apply nonempty_comps_join_sep.
Qed.

Lemma normpath_step_plain (k : nat) (acc : list string) (r : string) :
  plain_name r → posixpath.normpath_step k acc r = acc ++ [r].
Proof.
  intros (_ & H1 & H2 & H3). unfold posixpath.normpath_step.
  apply String.eqb_neq in H1, H2, H3. by rewrite H1, H2, H3.
Qed.

Lemma commonprefix_len_app (l k : list string) :
  posixpath.commonprefix_len l (l ++ k) = length l.
Proof.
  induction l as [|x l IH]; simpl; [by destruct k|].
  by rewrite String.eqb_refl, IH.
Qed.

(** The path of a plain entry of [P], relative to [P], is its name. *)
Lemma relpath_child (cwd P r : string) :
  posixpath.isabs P = true → plain_name r →
  posixpath.relpath cwd (posixpath.join P r) P = inr r.
Proof.
  intros HP Hr.
  assert (posixpath.isabs (posixpath.join P r) = true) as HPr
    by by apply isabs_join.
  unfold posixpath.relpath, posixpath.abspath. rewrite HP, HPr.
  destruct (String.eqb (posixpath.join P r) "") eqn:Hne.
  { apply String.eqb_eq in Hne. by rewrite Hne in HPr. }
  rewrite !normpath_absolute by done.
  destruct (split_sep_join_relative P r HP (plain_name_relative r Hr))
    as (pre & -> & Hpre).
  destruct Hr as (Hs & Hr'). rewrite Hs.
  assert (fold_left (posixpath.normpath_step 1) (posixpath.split_sep P) []
          = fold_left (posixpath.normpath_step 1) pre []) as ->
    by (destruct Hpre as [->| ->]; [done|by rewrite fold_left_app]).
  rewrite fold_left_app. simpl.
  rewrite normpath_step_plain by done.
  rewrite commonprefix_len_app, Nat.sub_diag, drop_app_length. done.
Qed.

(** ** What [_kp_dir] yields for an expanded post *)

Lemma below_app (c rest : list string) : os.below c (c ++ rest) = Some rest.
Proof.
  induction c as [|x c IH]; simpl; [by destruct rest|].
  by rewrite String.eqb_refl.
Qed.

Lemma scandir_entry (fs : filesystem) (c : list string) (name : string)
    (n : node) :
  fs !! (c ++ [name]) = Some n → (name, n) ∈ os.scandir fs c.
Proof.
  intros Hn. unfold os.scandir. apply list_elem_of_omap.
  exists (c ++ [name], n). split; [by apply elem_of_map_to_list|].
  simpl. by rewrite below_app.
Qed.

(** The first triple of [os.walk] on a directory is the directory itself,
    and its regular files are among the file names of the triple. *)
Lemma walk_top (E : Env) (fs : filesystem) (top : string) (c : list string) :
  os.resolve E fs top = inr c → fs !! c = Some Dir →
  ∃ dirs nondirs rest,
    os.walk E fs top = (top, dirs, nondirs) :: rest
    ∧ ∀ name data, fs !! (c ++ [name]) = Some (File data) → In name nondirs.
Proof.
  intros Hr Hc. unfold os.walk. simpl. rewrite Hr, Hc.
  do 3 eexists. split; [done|].
  intros name data Hn. apply list_elem_of_In, list_elem_of_fmap.
  exists (name, File data). split; [done|].
  apply list_elem_of_filter. split; [by intros []|by apply scandir_entry].
Qed.

Lemma relpath_total (cwd path start : string) :
  path ≠ "" → ∃ s, posixpath.relpath cwd path start = inr s.
Proof.
  intros Hp%String.eqb_neq. unfold posixpath.relpath. rewrite Hp.
  destruct (_ ++ _); eauto.
Qed.

Lemma sequence_total {A} (l : list (result A)) :
  (∀ x, In x l → ∃ a, x = inr a) →
  ∃ names, sequence l = inr names ∧ ∀ a, In (inr a) l → In a names.
Proof.
  induction l as [|x l IH]; intros Hl; simpl.
  - exists []. by split.
  - destruct (Hl x) as [a ->]; [by left|].
    destruct IH as (names & -> & Hnames); [intros; apply Hl; by right|].
    exists (a :: names). split; [done|].
    intros b [[= ->]|Hb]; [by left|]. right. auto.
Qed.

(** Every name [_kp_dir] computes for a walk from a non-empty top is a
    result: [relpath] does not raise there. *)
Lemma kp_dir_names_total (E : Env) (self : FolderKnowledgeRepository)
    (path top : string) (fs : filesystem) (x : result string) :
  top ≠ "" →
  In x (flat_map (folder._kp_dir_names E self path) (os.walk E fs top)) →
  ∃ a, x = inr a.
Proof.
  intros Htop (t & Ht & Hx)%in_flat_map.
  pose proof (walk_rec_dirpath_nonempty _ _ _ _ _ Htop Ht) as Hd.
  destruct t as [[dirpath dirnames] filenames]. simpl in Hd.
  rewrite kp_dir_names_all in Hx by done.
  apply in_map_iff in Hx as (filename & <- & _).
  apply relpath_total. by apply join_nonempty.
Qed.

Lemma isabs_nonempty (p : string) : posixpath.isabs p = true → p ≠ "".
Proof. by destruct p. Qed.

(** ** Enumerating references, the claim *)

(** C4, at an expanded post that has been added once: enumerating its root
    yields the reserved name [UUID] (and [REVISION]). *)
Lemma kp_dir_reserved_names_counterexample :
  ∃ names,
    folder._kp_dir example.E example.repo "post.kp" None example.fs_expanded
    = inr names
    ∧ "UUID" ∈ names ∧ "REVISION" ∈ names.
Proof.
  exists ["knowledge.md"; "REVISION"; "UUID"].
  split; [vm_compute; reflexivity|]. split; set_solver.
Qed.

(** C4, amended.  For a post in the expanded form, enumerating its root
    returns, and what it yields contains the name of every regular file
    directly in the post's directory whose name is not [REVISION]: a
    [UUID] file is listed like any other reference.  For a post in the
    packed form the enumeration is the one of the archive,
    [KnowledgePost._dir]. *)
Theorem kp_dir_lists_root_files (E : Env) (self : FolderKnowledgeRepository)
    (path : string) (fs : filesystem) :
  posixpath.isabs (_path self) = true →
  (os.isdir E fs (posixpath.join (_path self) path) = true →
   ∃ names,
     folder._kp_dir E self path None fs = inr names
     ∧ ∀ name data,
         plain_name name → name ≠ "REVISION" →
         files.read_binary E
           (posixpath.join (posixpath.join (_path self) path) name) fs
         = inr data →
         name ∈ names)
  ∧ (∀ kp parent,
       os.isdir E fs (posixpath.join (_path self) path) = false →
       KnowledgePost.from_file E (posixpath.join (_path self) path) fs
       = inr kp →
       folder._kp_dir E self path parent fs
       = inr (KnowledgePost._dir E kp parent)).
Proof.
  intros Habs. set (P := posixpath.join (_path self) path).
  assert (posixpath.isabs P = true) as HP by by apply isabs_join.
  split.
  - intros Hdir. unfold folder._kp_dir. fold P. rewrite Hdir.
    rewrite (join_absolute (_path self) P HP).
    destruct (sequence_total
                (flat_map (folder._kp_dir_names E self P) (os.walk E fs P)))
      as (names & Hseq & Hnames).
    { intros x. apply kp_dir_names_total. by apply isabs_nonempty. }
    exists names. split; [done|].
    intros name data Hname Hrev (c1 & Hr1 & Hc1)%read_binary_spec.
    apply list_elem_of_In, Hnames.
    apply resolve_join_plain in Hr1 as (c & Hc & HcDir & ->); [|done..].
    destruct (walk_top E fs P c Hc HcDir) as (dirs & nondirs & rest & -> & Hfiles).
    apply in_flat_map. exists (P, dirs, nondirs). split; [by left|].
    rewrite kp_dir_names_all by by apply isabs_nonempty.
    apply in_map_iff. exists name. split; [|by eapply Hfiles].
    rewrite (join_absolute (_path self) P HP). by apply relpath_child.
  - intros kp parent Hdir Hkp. unfold folder._kp_dir. fold P.
    by rewrite Hdir, Hkp.
Qed.

Lemma kp_dir_lists_root_files_witness :
  ∃ names,
    folder._kp_dir example.E example.repo "post.kp" None example.fs_expanded
    = inr names
    ∧ "UUID" ∈ names.
Proof.
  destruct (kp_dir_lists_root_files example.E example.repo "post.kp"
              example.fs_expanded eq_refl) as [Hexpanded _].
  destruct Hexpanded as (names & Hdir & Hnames); [vm_compute; reflexivity|].
  exists names. split; [exact Hdir|].
  apply (Hnames "UUID" (list_byte_of_string "1b9d6bcd")).
  - exact plain_UUID.
  - discriminate.
  - vm_compute. reflexivity.
Defined.

(** ** Choosing the backend *)

(** C7, at a work tree whose [.git] is a regular file: the URI does not
    start with [file://], no [.git] directory exists under it, and yet the
    git backend is chosen, not the folder backend. *)
Lemma from_uri_git_file_counterexample :
  startswith "file://" "/repo" = false
  ∧ os.isdir example.E example.fs_gitfile (posixpath.join "/repo" ".git")
    = false
  ∧ folder.from_uri example.E FolderKnowledgeRepository_cls "/repo"
      example.fs_gitfile
    = (GitKnowledgeRepository_cls, "/repo")
  ∧ folder.from_uri example.E FolderKnowledgeRepository_cls "/repo"
      example.fs_gitfile
    ≠ (FolderKnowledgeRepository_cls, "/repo").
Proof. repeat split; try (vm_compute; reflexivity). vm_compute. discriminate. Qed.

(** C7, amended.  A URI that starts with [file://] is decoded to a path and
    the folder backend is instantiated with it, whatever is in the file
    system; any other URI is taken as the path as it is, and the git backend
    is instantiated when an entry [.git] of any kind, directory or file,
    exists under it, the folder backend otherwise. *)
Theorem from_uri_resolution (E : Env) (uri : string) (fs : filesystem) :
  folder.from_uri E FolderKnowledgeRepository_cls uri fs
  = if startswith "file://" uri
    then (FolderKnowledgeRepository_cls, folder.uri_to_path E uri)
    else if os.path_exists E fs (posixpath.join uri ".git")
         then (GitKnowledgeRepository_cls, uri)
         else (FolderKnowledgeRepository_cls, uri).
Proof.
  unfold folder.from_uri. destruct (startswith "file://" uri); [done|].
  simpl. by destruct (os.path_exists E fs _).
Qed.

(** ** The lifecycle operations *)

(** C8, at any post: [_submit] and [_accept] return without an error. *)
Lemma folder_submit_accept_counterexample :
  folder._submit example.repo (Some "post.kp") example.fs_expanded
  = (example.fs_expanded, inr tt)
  ∧ folder._accept example.repo "post.kp" example.fs_expanded
    = (example.fs_expanded, inr tt).
Proof. split; reflexivity. Qed.

(** C8, amended.  On the folder backend [_unpublish] fails with
    [NotImplementedError] for every post path; [_submit] and [_accept] do
    nothing and succeed.  None of the three changes the repository. *)
Theorem folder_lifecycle (self : FolderKnowledgeRepository) (path : string)
    (fs : filesystem) :
  folder._unpublish self path fs = (fs, inl NotImplementedError)
  ∧ folder._submit self (Some path) fs = (fs, inr tt)
  ∧ folder._accept self path fs = (fs, inr tt).
Proof. repeat split. Qed.

(** ** Removing a post *)

(** [_remove] on a packed post raises and removes nothing. *)
Lemma remove_packed_raises (E : Env) (self : FolderKnowledgeRepository)
    (path : string) (fs : filesystem) :
  os.isfile E fs (posixpath.join (_path self) path) = true →
  folder._remove E self path fs = (fs, inl NotADirectoryError).
Proof.
  intros (c & data & Hr & Hc)%isfile_spec.
  unfold folder._remove, shutil.rmtree. by rewrite Hr, Hc.
Qed.

Lemma below_refl (c : list string) : os.below c c = Some [].
Proof. induction c as [|x c IH]; simpl; [done|]. by rewrite String.eqb_refl. Qed.

(** [_remove] on an expanded post removes it; after that [_kp_has_ref] does
    not answer, it raises. *)
Lemma remove_expanded_then_has_ref (E : Env) (self : FolderKnowledgeRepository)
    (path reference : string) (fs fs' : filesystem) :
  folder._remove E self path fs = (fs', inr tt) →
  os.path_exists E fs' (posixpath.join (_path self) path) = false
  ∧ ∃ e, folder._kp_has_ref E self path reference fs' = inl e.
Proof.
  unfold folder._remove, shutil.rmtree.
  set (P := posixpath.join (_path self) path).
  destruct (os.resolve E fs P) as [e|c] eqn:Hr; [done|].
  destruct (fs !! c) as [[|]|] eqn:Hc; try done. intros [= <-].
  set (fs' := filter _ fs).
  assert (dirs_kept fs' fs) as Hkept
    by (apply subseteq_dirs_kept, map_filter_subseteq).
  assert (∃ e, os.stat E fs' P = inl e) as [e He].
  { unfold os.stat. destruct (os.resolve E fs' P) as [e|c'] eqn:Hr'; [eauto|].
    eapply resolve_kept in Hr'; [|done].
    assert (c' = c) as -> by congruence.
    assert (fs' !! c = None) as ->; [|eauto].
    apply map_lookup_filter_None. right. intros n _. simpl.
    rewrite below_refl. by intros ?%bool_decide_unpack. }
  split.
  - unfold os.path_exists. by rewrite He.
  - unfold folder._kp_has_ref, os.isdir. fold P. rewrite He.
    unfold KnowledgePost.from_file, files.read_binary. rewrite He. eauto.
Qed.

(** C9, at a packed post: [_remove] raises [NotADirectoryError], the post is
    where it was, and its references are still found. *)
Theorem remove_packed_post_fails :
  folder._remove example.E example.repo "post.kp" example.fs_packed
  = (example.fs_packed, inl NotADirectoryError)
  ∧ folder._kp_has_ref example.E example.repo "post.kp" "knowledge.md"
      (folder._remove example.E example.repo "post.kp" example.fs_packed).1
    = inr true.
Proof. split; vm_compute; reflexivity. Qed.

(** ** The getters never raise *)

(** C10.  [_kp_uuid] and [_kp_get_revision] return for every post path and
    every state of the file system, and leave it as it is; when the [UUID]
    reference cannot be read (whatever the error), [_kp_uuid] returns
    [None]; when the [REVISION] reference cannot be read, or is read and is
    not a decimal integer, [_kp_get_revision] returns 0. *)
Theorem kp_getters_never_raise (E : Env) (self : FolderKnowledgeRepository)
    (path : string) (fs : filesystem) :
  (∃ uuid, folder._kp_uuid E self path fs = (fs, inr uuid))
  ∧ (∃ revision, folder._kp_get_revision E self path fs = (fs, inr revision))
  ∧ (∀ e, folder._kp_read_ref E self path "UUID" fs = inl e →
          folder._kp_uuid E self path fs = (fs, inr None))
  ∧ (∀ e, folder._kp_read_ref E self path "REVISION" fs = inl e →
          folder._kp_get_revision E self path fs = (fs, inr 0%Z))
  ∧ (∀ data e, folder._kp_read_ref E self path "REVISION" fs = inr data →
               builtins.int data = inl e →
               folder._kp_get_revision E self path fs = (fs, inr 0%Z)).
Proof.
  rewrite kp_uuid_eq, kp_get_revision_eq. repeat split; eauto.
  - by intros e ->.
  - by intros e ->.
  - by intros data e -> ->.
Qed.

Lemma kp_getters_never_raise_witness :
  folder._kp_uuid example.E example.repo "missing.kp" example.fs_expanded
  = (example.fs_expanded, inr None)
  ∧ folder._kp_get_revision example.E example.repo "missing.kp"
      example.fs_expanded
    = (example.fs_expanded, inr 0%Z)
  ∧ folder._kp_get_revision example.E example.repo "post.kp"
      (<[ ["repo"; "post.kp"; "REVISION"] := File (list_byte_of_string "one") ]>
         example.fs_expanded)
    = (<[ ["repo"; "post.kp"; "REVISION"] := File (list_byte_of_string "one") ]>
         example.fs_expanded, inr 0%Z).
Proof.
  split; [|split].
  - destruct (kp_getters_never_raise example.E example.repo "missing.kp"
                example.fs_expanded) as (_ & _ & H & _).
    apply (H FileNotFoundError). vm_compute. reflexivity.
  - destruct (kp_getters_never_raise example.E example.repo "missing.kp"
                example.fs_expanded) as (_ & _ & _ & H & _).
    apply (H FileNotFoundError). vm_compute. reflexivity.
  - destruct (kp_getters_never_raise example.E example.repo "post.kp"
                (<[ ["repo"; "post.kp"; "REVISION"]
                    := File (list_byte_of_string "one") ]> example.fs_expanded))
      as (_ & _ & _ & _ & H).
    apply (H (list_byte_of_string "one") ValueError); vm_compute; reflexivity.
Defined.

(** ** The hook-aware commit *)

Lemma same_objects_refl (st : git.Repo) : same_objects st st.
Proof. by repeat split. Qed.

Lemma same_objects_trans (st1 st2 st3 : git.Repo) :
  same_objects st1 st2 → same_objects st2 st3 → same_objects st1 st3.
Proof.
  unfold same_objects. intros (?&?&?&?&?&?) (?&?&?&?&?&?).
  repeat split; congruence.
Qed.

Lemma set_editmsg_same_objects (st : git.Repo) (m : option string) :
  same_objects st (git.set_editmsg st m).
Proof. by repeat split. Qed.

(** A hook run creates no object, whatever its outcome. *)
Lemma run_commit_hook_same_objects (name : string) (args : list string)
    (st st' : git.Repo) (r : result unit) :
  git.run_commit_hook name args st = (st', r) → same_objects st st'.
Proof.
  unfold git.run_commit_hook.
  destruct (git.hooks st _) as [|ex|run].
  - intros [= <- _]. apply same_objects_refl.
  - intros [= <- _]. apply same_objects_refl.
  - assert (same_objects st
              match git.edited_message (run args (git.COMMIT_EDITMSG st)) with
              | Some m => git.set_editmsg st (Some m)
              | None => st
              end) as Hsame
      by (destruct (git.edited_message _);
          [apply set_editmsg_same_objects|apply same_objects_refl]).
    destruct (negb _); by intros [= <- _].
Qed.

Lemma hook_passes_same_objects (st st' : git.Repo) (name : string) :
  same_objects st st' → git.hook_passes st name → git.hook_passes st' name.
Proof. unfold git.hook_passes. by intros (-> & -> & _). Qed.

Lemma run_commit_hook_passes (name : string) (args : list string)
    (st : git.Repo) :
  git.hook_passes st name →
  ∃ st', git.run_commit_hook name args st = (st', inr tt)
         ∧ same_objects st st'.
Proof.
  intros Hpass.
  destruct (git.run_commit_hook name args st) as [st' r] eqn:Hrun.
  exists st'. split; [|by eapply run_commit_hook_same_objects].
  revert Hrun Hpass. unfold git.run_commit_hook, git.hook_passes.
  destruct (git.hooks st _) as [|ex|run]; [by intros [= <- <-]|done|].
  intros Hrun Hzero. rewrite Hzero in Hrun. simpl in Hrun. congruence.
Qed.

(** A hook that exits with a code other than 0 makes [run_commit_hook]
    raise, with the code and the captured output. *)
Lemma run_commit_hook_fails (name : string) (args : list string)
    (st : git.Repo) (run : list string → option string → git.hook_run) :
  git.hooks st (git.hook_path name (git.git_dir st)) = git.Executable run →
  git.returncode (run args (git.COMMIT_EDITMSG st)) ≠ 0%Z →
  ∃ st', git.run_commit_hook name args st
         = (st', inl (HookExecutionError
                        (git.hook_path name (git.git_dir st))
                        (ExitCode (git.returncode
                                     (run args (git.COMMIT_EDITMSG st))))
                        (git.stderr (run args (git.COMMIT_EDITMSG st)))
                        (git.stdout (run args (git.COMMIT_EDITMSG st)))))
         ∧ same_objects st st'.
Proof.
  intros Hhook Hcode%Z.eqb_neq.
  destruct (git.run_commit_hook name args st) as [st' r] eqn:Hrun.
  exists st'. split; [|by eapply run_commit_hook_same_objects].
  revert Hrun. unfold git.run_commit_hook. rewrite Hhook, Hcode. simpl.
  congruence.
Qed.

Lemma write_tree_eq (st : git.Repo) :
  git.write_tree st = ((git.write_tree st).1, inr (git.index st)).
Proof. reflexivity. Qed.

(** The steps of [commit] up to the commit object, when the hooks before it
    let it pass. *)
Lemma commit_creates (message : string) (parent_commits : option (list nat))
    (head : bool) (sig : git.Signature) (st : git.Repo) :
  git.hook_passes st "pre-commit" → git.hook_passes st "commit-msg" →
  ∃ st1 st2 c,
    same_objects st st1
    ∧ git.COMMIT_EDITMSG st1 = None
    ∧ git.create_from_tree (git.index st) (git.message c) parent_commits head
        sig (git.write_tree st1).1 = (st2, inr c)
    ∧ git.commit message parent_commits head sig false st
      = (git.run_commit_hook "post-commit" [] ;;; ret c) st2.
Proof.
  intros Hpre Hmsg. unfold git.commit. simpl negb. cbv iota.
  destruct (run_commit_hook_passes "pre-commit" [] st Hpre)
    as (sta & Ha & Hsa).
  pose proof (set_editmsg_same_objects sta (Some message)) as Hsb.
  set (stb := git.set_editmsg sta (Some message)) in *.
  assert (git.hook_passes stb "commit-msg") as Hmsg'
    by (eapply hook_passes_same_objects; [|done];
        by eapply same_objects_trans).
  destruct (run_commit_hook_passes "commit-msg"
              [git._commit_editmsg_filepath stb] stb Hmsg')
    as (stc & Hc & Hsc).
  assert (∃ m, git.COMMIT_EDITMSG stc = Some m) as [m Hm].
  { revert Hc. unfold git.run_commit_hook.
    destruct (git.hooks stb _) as [|ex|run]; [intros [= <-]; by eexists|done|].
    destruct (git.edited_message _) as [m'|];
      destruct (negb _); intros [= <-]; by eexists. }
  set (std := git.set_editmsg stc None).
  assert (same_objects st std) as Hsd.
  { eapply same_objects_trans; [done|]. eapply same_objects_trans; [done|].
    eapply same_objects_trans; [done|]. apply set_editmsg_same_objects. }
  destruct (git.create_from_tree (git.index std) m parent_commits head sig
              (git.write_tree std).1) as [st2 r] eqn:Hcreate.
  assert (∃ c, r = inr c ∧ git.message c = m) as (c & -> & Hmc)
    by (revert Hcreate; unfold git.create_from_tree;
        intros [= _ <-]; by eexists).
  assert (git.index std = git.index st) as Hidx by apply Hsd.
  exists std, st2, c. split; [done|]. split; [done|].
  split; [by rewrite Hmc, <- Hidx|].
  unfold bind at 1 2 3 4 5 6 7. rewrite Ha.
  unfold git._write_commit_editmsg. fold stb. rewrite Hc.
  unfold git._read_commit_editmsg. rewrite Hm.
  unfold git._remove_commit_editmsg, ret. fold std.
  unfold bind at 1 2. rewrite (write_tree_eq std), Hcreate. done.
Qed.

Lemma create_from_tree_inv (tree : git.Tree) (message : string)
    (parent_commits : option (list nat)) (head : bool) (sig : git.Signature)
    (st st' : git.Repo) (c : git.Commit) :
  git.create_from_tree tree message parent_commits head sig st = (st', inr c) →
  git.git_dir st' = git.git_dir st ∧ git.hooks st' = git.hooks st
  ∧ git.trees st' = git.trees st ∧ git.commits st' = c :: git.commits st
  ∧ git.COMMIT_EDITMSG st' = git.COMMIT_EDITMSG st
  ∧ git.tree c = tree
  ∧ (head = true → git.HEAD st' = Some (git.hexsha c)).
Proof.
  unfold git.create_from_tree. intros [= <- <-]. simpl.
  repeat split. by intros ->.
Qed.

(** The state in which the [post-commit] hook is run: the commit object is
    there. *)
Lemma commit_reaches_post_commit (message : string)
    (parent_commits : option (list nat)) (head : bool) (sig : git.Signature)
    (st : git.Repo) :
  git.hook_passes st "pre-commit" → git.hook_passes st "commit-msg" →
  ∃ st2 c,
    git.commit message parent_commits head sig false st
    = (git.run_commit_hook "post-commit" [] ;;; ret c) st2
    ∧ git.git_dir st2 = git.git_dir st ∧ git.hooks st2 = git.hooks st
    ∧ git.trees st2 = git.index st :: git.trees st
    ∧ git.commits st2 = c :: git.commits st
    ∧ git.COMMIT_EDITMSG st2 = None
    ∧ git.tree c = git.index st
    ∧ (head = true → git.HEAD st2 = Some (git.hexsha c)).
Proof.
  intros Hpre Hmsg.
  destruct (commit_creates message parent_commits head sig st Hpre Hmsg)
    as (st1 & st2 & c & (Hg & Hh & Hi & Ht & Hc & _) & He & Hcreate & Hcommit).
  apply create_from_tree_inv in Hcreate
    as (Hg2 & Hh2 & Ht2 & Hc2 & He2 & Htree & Hhead).
  simpl in *. exists st2, c. repeat split; try congruence. done.
Qed.

(** C5.  With hooks enabled: when an executable [pre-commit] hook exits
    with a code other than 0, [commit] raises [HookExecutionError] with
    that code and the captured stderr and stdout, and the trees, the
    commits and [HEAD] are what they were; when there is no executable
    [pre-commit] hook, the hook step returns at once and changes nothing,
    and the commit goes on: if the later hooks let it pass it returns the
    new commit, which is then the latest one. *)
Theorem pre_commit_hook_gate (message : string)
    (parent_commits : option (list nat)) (head : bool) (sig : git.Signature)
    (st : git.Repo) :
  (∀ run,
     git.hooks st (git.hook_path "pre-commit" (git.git_dir st))
     = git.Executable run →
     git.returncode (run [] (git.COMMIT_EDITMSG st)) ≠ 0%Z →
     ∃ st',
       git.commit message parent_commits head sig false st
       = (st', inl (HookExecutionError
                      (git.hook_path "pre-commit" (git.git_dir st))
                      (ExitCode (git.returncode
                                   (run [] (git.COMMIT_EDITMSG st))))
                      (git.stderr (run [] (git.COMMIT_EDITMSG st)))
                      (git.stdout (run [] (git.COMMIT_EDITMSG st)))))
       ∧ git.trees st' = git.trees st
       ∧ git.commits st' = git.commits st
       ∧ git.HEAD st' = git.HEAD st)
  ∧ (git.hooks st (git.hook_path "pre-commit" (git.git_dir st))
     = git.NotExecutable →
     git.run_commit_hook "pre-commit" [] st = (st, inr tt)
     ∧ (git.hook_passes st "commit-msg" → git.hook_passes st "post-commit" →
        ∃ st' c,
          git.commit message parent_commits head sig false st = (st', inr c)
          ∧ git.commits st' = c :: git.commits st
          ∧ git.trees st' = git.tree c :: git.trees st)).
Proof.
  split.
  - intros run Hhook Hcode.
    destruct (run_commit_hook_fails "pre-commit" [] st run Hhook Hcode)
      as (st' & Hrun & (_ & _ & _ & Ht & Hc & Hh)).
    exists st'. repeat split; try done.
    unfold git.commit. simpl negb. cbv iota.
    unfold bind at 1 2. by rewrite Hrun.
  - intros Hhook. split.
    + unfold git.run_commit_hook. by rewrite Hhook.
    + intros Hmsg Hpost.
      assert (git.hook_passes st "pre-commit") as Hpre
        by (unfold git.hook_passes; by rewrite Hhook).
      destruct (commit_reaches_post_commit message parent_commits head sig
                  st Hpre Hmsg)
        as (st2 & c & -> & Hg & Hh & Ht & Hc & _ & Htree & _).
      assert (git.hook_passes st2 "post-commit") as Hpost2
        by (unfold git.hook_passes in *; by rewrite Hg, Hh).
      destruct (run_commit_hook_passes "post-commit" [] st2 Hpost2)
        as (st' & Hrun & (_ & _ & _ & Ht' & Hc' & _)).
      exists st', c. unfold bind, ret. rewrite Hrun.
      repeat split; congruence.
Qed.

Lemma pre_commit_hook_gate_witness :
  (∃ st',
     git.commit "Add post" None true example.no_signature false
       example.pre_commit_fails
     = (st', inl (HookExecutionError "/repo/.git/hooks/pre-commit"
                    (ExitCode 1) "failed" "checking"))
     ∧ git.trees st' = [] ∧ git.commits st' = [] ∧ git.HEAD st' = None)
  ∧ ∃ st' c,
      git.commit "Add post" None true example.no_signature false
        (example.git_repo (λ _, git.NotExecutable))
      = (st', inr c)
      ∧ git.commits st' = [c]
      ∧ git.trees st' = [git.tree c].
Proof.
  split.
  - destruct (pre_commit_hook_gate "Add post" None true example.no_signature
                example.pre_commit_fails) as [Hfail _].
    apply (Hfail (λ _ _, {| git.returncode := 1; git.stdout := "checking";
                            git.stderr := "failed";
                            git.edited_message := None |})).
    + reflexivity.
    + simpl. lia.
  - destruct (pre_commit_hook_gate "Add post" None true example.no_signature
                (example.git_repo (λ _, git.NotExecutable))) as [_ Hskip].
    destruct (Hskip eq_refl) as [_ Hgo].
    apply Hgo; exact I.
Defined.




(** * More of the code *)

(** ** [normpath] and [abspath] *)

Lemma prefix_sep (s : string) :
  String.prefix "/" s = posixpath.startswith_sep s.
Proof.
  destruct s as [|c s]; [done|].
  change (String.prefix "/" (String c s))
    with (if ascii_dec "/" c then String.prefix "" s else false).
  change (posixpath.startswith_sep (String c s)) with (Ascii.eqb c "/").
  destruct (ascii_dec "/" c) as [<-|Hc]; [by destruct s|].
  symmetry. apply Ascii.eqb_neq. congruence.
Qed.

Lemma prefix_empty (s : string) : String.prefix "" s = true.
Proof. by destruct s. Qed.

(** The shape of a normalised absolute path: one or two slashes, and the
    components. *)
Lemma normpath_absolute_shape (p : string) :
  posixpath.isabs p = true →
  ∃ comps,
    Forall normal_comp comps
    ∧ (posixpath.normpath p = String posixpath.sep (posixpath.join_sep comps)
       ∨ posixpath.normpath p
         = String posixpath.sep
             (String posixpath.sep (posixpath.join_sep comps))).
Proof.
  intros Hp. destruct p as [|c p]; [done|].
  assert (posixpath.is_sep c = true) as Hc by exact Hp.
  assert (∀ k comps acc,
            k ≠ 0 → Forall normal_comp acc →
            Forall no_sep comps →
            Forall normal_comp
              (fold_left (posixpath.normpath_step k) comps acc)) as Hfold.
  { intros k comps. induction comps as [|x comps IH]; intros acc Hk Hacc Hx;
      simpl; [done|].
    inversion_clear Hx as [|?? Hx1 Hx2]. apply IH; [done| |done].
    unfold posixpath.normpath_step.
    destruct (String.eqb x "") eqn:H0; [done|]. apply String.eqb_neq in H0.
    destruct (String.eqb x ".") eqn:H1; [done|]. apply String.eqb_neq in H1.
    simpl.
    destruct (String.eqb x "..") eqn:H2; simpl.
    - destruct k; [done|]. simpl.
      destruct (last acc) as [l|] eqn:Hl; [|by apply Forall_removelast].
      destruct (String.eqb l "..") eqn:Hl2; [|by apply Forall_removelast].
      apply String.eqb_eq in Hl2 as ->.
      apply last_Some in Hl as [acc' ->].
      apply Forall_app in Hacc as [_ Hlast].
      inversion_clear Hlast as [|?? (_ & _ & Hdd) _]. done.
    - apply String.eqb_neq in H2. apply Forall_app. split; [done|].
      repeat constructor; done. }
  unfold posixpath.normpath.
  change (String.eqb (String c p) "") with false. cbv iota.
  change (posixpath.startswith_sep (String c p)) with (posixpath.is_sep c).
  rewrite Hc. cbv zeta.
  destruct (_ && _).
  - eexists. split; [apply (Hfold 2); [done|done|apply split_sep_no_sep]|].
    right. reflexivity.
  - eexists. split; [apply (Hfold 1); [done|done|apply split_sep_no_sep]|].
    left. reflexivity.
Qed.

Lemma normpath_isabs (p : string) :
  posixpath.isabs p = true → posixpath.isabs (posixpath.normpath p) = true.
Proof.
  intros Hp. by destruct (normpath_absolute_shape p Hp) as (comps & _ & [->| ->]).
Qed.

Lemma abspath_isabs (cwd p : string) :
  posixpath.isabs cwd = true →
  posixpath.isabs (posixpath.abspath cwd p) = true.
Proof.
  intros Hcwd. unfold posixpath.abspath. apply normpath_isabs.
  destruct (posixpath.isabs p) eqn:Hp; [done|]. by apply isabs_join.
Qed.

Lemma join_sep_relative (comps : list string) :
  Forall normal_comp comps →
  posixpath.startswith_sep (posixpath.join_sep comps) = false.
Proof.
  intros Hc. destruct comps as [|c comps]; [done|].
  inversion_clear Hc as [|?? ((Hne & Hns) & _) _].
  assert (posixpath.startswith_sep c = false) as Hc.
  { destruct c as [|a c]; [done|]. unfold no_sep in Hns. simpl in *.
    by destruct (posixpath.is_sep a). }
  destruct comps; simpl; [done|].
  destruct c as [|a c]; [done|]. by rewrite append_String.
Qed.

Lemma fold_normal_comps (k : nat) (comps acc : list string) :
  Forall normal_comp comps →
  fold_left (posixpath.normpath_step k) comps acc = acc ++ comps.
Proof.
  revert acc. induction comps as [|c comps IH]; intros acc Hc; simpl.
  - by rewrite app_nil_r.
  - inversion_clear Hc as [|?? ((H0 & _) & H1 & H2) Hrest].
    assert (posixpath.normpath_step k acc c = acc ++ [c]) as ->.
    { unfold posixpath.normpath_step.
      apply String.eqb_neq in H0, H1, H2. by rewrite H0, H1, H2. }
    rewrite IH by done. by rewrite <- app_assoc.
Qed.

Lemma normal_comps_no_sep (comps : list string) :
  Forall normal_comp comps → Forall no_sep comps.
Proof. intros Hc. eapply Forall_impl; [done|]. by intros ? ((_ & ?) & _). Qed.

(** The components of a normalised path are its own. *)
Lemma fold_split_join_sep (k : nat) (comps : list string) :
  Forall normal_comp comps →
  fold_left (posixpath.normpath_step k)
    (posixpath.split_sep (posixpath.join_sep comps)) [] = comps.
Proof.
  intros Hc. destruct comps as [|c comps]; [done|].
  rewrite split_sep_join_sep; [|done|by apply normal_comps_no_sep].
  by rewrite fold_normal_comps.
Qed.

(** [normpath] changes nothing in what it returns for an absolute path. *)
Lemma normpath_idempotent (p : string) :
  posixpath.isabs p = true →
  posixpath.normpath (posixpath.normpath p) = posixpath.normpath p.
Proof.
  intros Hp.
  destruct (normpath_absolute_shape p Hp) as (comps & Hc & [->| ->]);
    pose proof (join_sep_relative comps Hc) as Hrel;
    pose proof (fold_split_join_sep 1 comps Hc) as Hf1;
    pose proof (fold_split_join_sep 2 comps Hc) as Hf2;
    set (s := posixpath.join_sep comps) in *.
  - unfold posixpath.normpath.
    change (String.eqb (String posixpath.sep s) "") with false. cbv iota.
    change (startswith "//" (String posixpath.sep s)) with (String.prefix "/" s).
    rewrite prefix_sep, Hrel. simpl andb. cbv iota zeta.
    change (posixpath.startswith_sep (String posixpath.sep s)) with true.
    cbv iota.
    change (posixpath.split_sep (String posixpath.sep s))
      with ("" :: posixpath.split_sep s).
    change (fold_left (posixpath.normpath_step 1)
              ("" :: posixpath.split_sep s) [])
      with (fold_left (posixpath.normpath_step 1) (posixpath.split_sep s) []).
    rewrite Hf1.
    change (String.concat "" (replicate 1 "/") +:+ ?x)
      with (String posixpath.sep x).
    done.
  - unfold posixpath.normpath.
    change (String.eqb (String posixpath.sep (String posixpath.sep s)) "")
      with false. cbv iota.
    change (startswith "//" (String posixpath.sep (String posixpath.sep s)))
      with (String.prefix "" s).
    rewrite prefix_empty.
    change (startswith "///" (String posixpath.sep (String posixpath.sep s)))
      with (String.prefix "/" s).
    rewrite prefix_sep, Hrel. simpl andb. cbv iota zeta.
    change (posixpath.split_sep (String posixpath.sep (String posixpath.sep s)))
      with ("" :: "" :: posixpath.split_sep s).
    change (fold_left (posixpath.normpath_step 2)
              ("" :: "" :: posixpath.split_sep s) [])
      with (fold_left (posixpath.normpath_step 2) (posixpath.split_sep s) []).
    rewrite Hf2.
    change (String.concat "" (replicate 2 "/") +:+ ?x)
      with (String posixpath.sep (String posixpath.sep x)).
    done.
Qed.

Lemma abspath_idempotent (cwd p : string) :
  posixpath.isabs cwd = true →
  posixpath.abspath cwd (posixpath.abspath cwd p) = posixpath.abspath cwd p.
Proof.
  intros Hcwd. unfold posixpath.abspath at 1.
  rewrite (abspath_isabs cwd p Hcwd). unfold posixpath.abspath.
  apply normpath_idempotent.
  destruct (posixpath.isabs p) eqn:Hp; [done|]. by apply isabs_join.
Qed.

Lemma uri_to_path_isabs (E : Env) (uri : string) :
  posixpath.isabs (folder.uri_to_path E uri) = true.
Proof.
  unfold folder.uri_to_path, posixpath.abspath.
  rewrite isabs_join by done. apply normpath_isabs. by apply isabs_join.
Qed.

(** ** Copying and creating only add to the file system *)

Lemma path_exists_spec (E : Env) (fs : filesystem) (p : string) :
  os.path_exists E fs p = true
  ↔ ∃ c n, os.resolve E fs p = inr c ∧ fs !! c = Some n.
Proof.
  unfold os.path_exists, os.stat. split.
  - destruct (os.resolve E fs p) as [e|c]; [done|].
    destruct (fs !! c) as [n|] eqn:Hc; [eauto|done].
  - intros (c & n & -> & ->). done.
Qed.

Lemma path_exists_subseteq (E : Env) (fs fs' : filesystem) (p : string) :
  fs ⊆ fs' → os.path_exists E fs p = true → os.path_exists E fs' p = true.
Proof.
  intros Hsub (c & n & Hr & Hc)%path_exists_spec. apply path_exists_spec.
  exists c, n. split; [|by eapply lookup_weaken].
  eapply resolve_kept; [by apply subseteq_dirs_kept|done].
Qed.

Lemma isdir_path_exists (E : Env) (fs : filesystem) (p : string) :
  os.isdir E fs p = true → os.path_exists E fs p = true.
Proof. intros (c & ? & ?)%isdir_spec. apply path_exists_spec. eauto. Qed.

Lemma isfile_path_exists (E : Env) (fs : filesystem) (p : string) :
  os.isfile E fs p = true → os.path_exists E fs p = true.
Proof. intros (c & d & ? & ?)%isfile_spec. apply path_exists_spec. eauto. Qed.

Lemma missing_not_isdir (E : Env) (fs : filesystem) (p : string) :
  os.path_exists E fs p = false → os.isdir E fs p = false.
Proof.
  intros Hp. destruct (os.isdir E fs p) eqn:Hd; [|done].
  apply isdir_path_exists in Hd. congruence.
Qed.

(** Writing to a path where nothing is adds one entry. *)
Lemma write_binary_missing_subseteq (E : Env) (p : string) (data : bytes)
    (fs : filesystem) :
  os.path_exists E fs p = false → fs ⊆ (files.write_binary E p data fs).1.
Proof.
  intros Hp. unfold files.write_binary.
  destruct (os.resolve E fs p) as [e|c] eqn:Hr; [done|].
  destruct (fs !! c) as [n|] eqn:Hc.
  - assert (os.path_exists E fs p = true)
      by (apply path_exists_spec; eauto). congruence.
  - by apply create_subseteq.
Qed.

(** [shutil.copy] to a path where nothing is: the file system grows, and
    when the copy returns the new file holds what the source held. *)
Lemma copy_to_missing (E : Env) (src dst : string) (fs : filesystem) :
  os.path_exists E fs dst = false →
  fs ⊆ (shutil_copy.copy E src dst fs).1
  ∧ ∀ r, (shutil_copy.copy E src dst fs).2 = inr r →
         r = dst
         ∧ ∃ data, files.read_binary E src fs = inr data
                   ∧ files.read_binary E dst
                       (shutil_copy.copy E src dst fs).1 = inr data.
Proof.
  intros Hdst. unfold shutil_copy.copy.
  rewrite (missing_not_isdir _ _ _ Hdst).
  destruct (shutil_copy.samefile E fs src dst); [by split|].
  destruct (files.read_binary E src fs) as [e|data] eqn:Hsrc; [by split|].
  pose proof (write_binary_missing_subseteq E dst data fs Hdst) as Hsub.
  destruct (files.write_binary E dst data fs) as [fs' [e|[]]] eqn:Hw;
    simpl in *; [by split|].
  split; [done|]. intros r [= <-]. split; [done|].
  exists data. split; [done|]. by eapply write_binary_read.
Qed.

Lemma read_binary_path_exists (E : Env) (p : string) (fs : filesystem)
    (data : bytes) :
  files.read_binary E p fs = inr data → os.path_exists E fs p = true.
Proof. intros (c & ? & ?)%read_binary_spec. apply path_exists_spec. eauto. Qed.

Section Create.

Context (E : Env).

Lemma copy_templates_subseteq (path : string)
    (templates : list (string * string)) :
  ∀ fs : filesystem,
    fs ⊆ (folder_create.copy_templates E path templates fs).1.
Proof.
  induction templates as [|[filename template] rest IH]; intros fs; simpl;
    [done|].
  unfold bindx at 1.
  destruct (negb (os.path_exists E fs (posixpath.join path filename))) eqn:Hex;
    [|apply IH].
  apply negb_true_iff in Hex.
  destruct (copy_to_missing E template (posixpath.join path filename) fs Hex)
    as [Hsub _].
  unfold bindx at 1.
  destruct (shutil_copy.copy E template (posixpath.join path filename) fs)
    as [fs1 [e|r]]; simpl in *; [done|].
  unfold retx. etrans; [done|]. apply IH.
Qed.

(** When the loop over the templates returns, every target exists. *)
Lemma copy_templates_targets (path : string)
    (templates : list (string * string)) :
  ∀ fs fs' : filesystem,
    folder_create.copy_templates E path templates fs = (fs', inr tt) →
    ∀ filename template,
      In (filename, template) templates →
      os.path_exists E fs' (posixpath.join path filename) = true.
Proof.
  induction templates as [|[filename template] rest IH]; intros fs fs';
    simpl; [done|].
  unfold bindx at 1.
  destruct (negb (os.path_exists E fs (posixpath.join path filename))) eqn:Hex.
  - apply negb_true_iff in Hex.
    destruct (copy_to_missing E template (posixpath.join path filename) fs Hex)
      as [_ Hcopy].
    unfold bindx at 1.
    destruct (shutil_copy.copy E template (posixpath.join path filename) fs)
      as [fs1 [e|r]]; simpl in *; [done|].
    destruct (Hcopy r eq_refl) as (_ & data & _ & Hread).
    unfold retx. intros Hrest f t [[= <- <-]|Hin]; [|by eapply IH].
    eapply path_exists_subseteq.
    + pose proof (copy_templates_subseteq path rest fs1) as Hsub.
      by rewrite Hrest in Hsub.
    + by eapply read_binary_path_exists.
  - apply negb_false_iff in Hex. unfold retx.
    intros Hrest f t [[= <- <-]|Hin]; [|by eapply IH].
    eapply path_exists_subseteq; [|done].
    pose proof (copy_templates_subseteq path rest fs) as Hsub.
    by rewrite Hrest in Hsub.
Qed.

(** Where every target exists the loop does nothing. *)
Lemma copy_templates_present (path : string)
    (templates : list (string * string)) (fs : filesystem) :
  (∀ filename template,
     In (filename, template) templates →
     os.path_exists E fs (posixpath.join path filename) = true) →
  folder_create.copy_templates E path templates fs = (fs, inr tt).
Proof.
  induction templates as [|[filename template] rest IH]; intros Hall; simpl;
    [done|].
  unfold bindx at 1. rewrite (Hall filename template) by by left. simpl.
  unfold retx. apply IH. intros f t Hin. apply (Hall f t). by right.
Qed.

Lemma create_subseteq_fs (templates : list (string * string)) (uri : string)
    (fs : filesystem) :
  fs ⊆ (folder_create.create E templates uri fs).1.
Proof.
  unfold folder_create.create, bindx, lift.
  match goal with |- context [posixpath.abspath (getcwd E) ?u] =>
    set (path := posixpath.abspath (getcwd E) u) end.
  pose proof (ensure_dir_subseteq E path fs) as Hsub.
  destruct (if negb _ then _ else _) as [fs1 [e|[]]]; simpl in *; [done|].
  pose proof (copy_templates_subseteq path templates fs1) as Hsub2.
  destruct (folder_create.copy_templates E path templates fs1)
    as [fs2 [e|[]]]; simpl in *; by etrans.
Qed.

(** What [create] has done when it returns. *)
Lemma create_returns_inv (readme config uri : string) (fs fs' : filesystem)
    (path : string) :
  posixpath.isabs (getcwd E) = true →
  folder_create.create E (folder_create.TEMPLATES readme config) uri fs
  = (fs', inr path) →
  path = posixpath.abspath (getcwd E)
           (if startswith "file://" uri then folder.uri_to_path E uri else uri)
  ∧ posixpath.isabs path = true
  ∧ os.isdir E fs' path = true
  ∧ os.path_exists E fs' (posixpath.join path "README.md") = true
  ∧ os.path_exists E fs' (posixpath.join path ".knowledge_repo_config.yml")
    = true.
Proof.
  intros Hcwd. unfold folder_create.create, bindx, lift.
  match goal with |- context [posixpath.abspath (getcwd E) ?u] =>
    set (p := posixpath.abspath (getcwd E) u) end.
  assert (posixpath.isabs p = true) as Hp by by apply abspath_isabs.
  destruct (if negb _ then _ else _) as [fs1 [e|[]]]; [done|].
  destruct (folder_create.copy_templates E p _ fs1)
    as [fs2 [e|[]]] eqn:Hcopy; [done|].
  unfold retx. intros [= <- <-].
  pose proof (copy_templates_targets p _ fs1 fs2 Hcopy) as Htargets.
  assert (os.path_exists E fs2 (posixpath.join p "README.md") = true) as H1
    by (eapply Htargets; by left).
  assert (os.path_exists E fs2
            (posixpath.join p ".knowledge_repo_config.yml") = true) as H2
    by (eapply Htargets; right; by left).
  repeat split; try done.
  apply path_exists_spec in H1 as (c & n & Hr & _).
  apply resolve_join_plain in Hr as (cP & HcP & Hdir & _);
    [|done|by repeat split].
  apply isdir_spec. eauto.
Qed.

End Create.

(** X1.  [uri_to_path] returns an absolute path for every URI, whatever the
    current directory is. *)
Theorem uri_to_path_absolute (E : Env) (uri : string) :
  posixpath.isabs (folder.uri_to_path E uri) = true.
Proof. apply uri_to_path_isabs. Qed.

(** X2.  [create] only adds to the file system: whether it returns or
    raises, every entry that was there is there afterwards, unchanged; in
    particular an existing README or configuration file is not overwritten. *)
Theorem create_only_adds (E : Env) (templates : list (string * string))
    (uri : string) (fs : filesystem) :
  fs ⊆ (folder_create.create E templates uri fs).1
  ∧ ∀ p data,
      files.read_binary E p fs = inr data →
      files.read_binary E p (folder_create.create E templates uri fs).1
      = inr data.
Proof.
  pose proof (create_subseteq_fs E templates uri fs) as Hsub.
  split; [done|].
  intros p data (c & Hr & Hc)%read_binary_spec. apply read_binary_spec.
  exists c. split; [|by eapply lookup_weaken].
  eapply resolve_kept; [by apply subseteq_dirs_kept|done].
Qed.

Lemma create_only_adds_witness :
  files.read_binary example.E "/srv/repo/README.md"
    (folder_create.create example.E sample.TEMPLATES "/srv/repo"
       (<[ ["srv"; "repo"; "README.md"] := File (list_byte_of_string "mine") ]>
          sample.fs_created)).1
  = inr (list_byte_of_string "mine").
Proof.
  apply (create_only_adds example.E sample.TEMPLATES "/srv/repo").
  compute_done.
Defined.

(** X3.  When [create] returns, the path it returns is absolute and is a
    directory, the README and the configuration file exist in it, and
    calling [create] again returns the same path and changes nothing. *)
Theorem create_makes_repository (E : Env) (readme config uri path : string)
    (fs fs' : filesystem) :
  posixpath.isabs (getcwd E) = true →
  folder_create.create E (folder_create.TEMPLATES readme config) uri fs
  = (fs', inr path) →
  posixpath.isabs path = true
  ∧ os.isdir E fs' path = true
  ∧ os.path_exists E fs' (posixpath.join path "README.md") = true
  ∧ os.path_exists E fs' (posixpath.join path ".knowledge_repo_config.yml")
    = true
  ∧ folder_create.create E (folder_create.TEMPLATES readme config) uri fs'
    = (fs', inr path).
Proof.
  intros Hcwd Hcreate.
  destruct (create_returns_inv E readme config uri fs fs' path Hcwd Hcreate)
    as (Hpath & Habs & Hdir & H1 & H2).
  repeat split; try done.
  unfold folder_create.create, bindx, lift. rewrite <- Hpath.
  rewrite (isdir_path_exists _ _ _ Hdir). cbn [negb]. unfold ret.
  rewrite copy_templates_present; [done|].
  intros f t [[= <- <-]|[[= <- <-]|[]]]; done.
Qed.

Lemma create_makes_repository_witness :
  os.isdir example.E sample.fs_created "/srv/repo" = true
  ∧ folder_create.create example.E sample.TEMPLATES "/srv/repo"
      sample.fs_created
    = (sample.fs_created, inr "/srv/repo").
Proof.
  destruct (create_makes_repository example.E sample.readme_template
              sample.config_template "/srv/repo" "/srv/repo"
              sample.fs_package sample.fs_created) as (_ & H1 & _ & _ & H2).
  - reflexivity.
  - compute_done.
  - split; [exact H1|exact H2].
Defined.

(** X4.  The setter of [path]: when it returns, the path it stores is
    absolute and exists, and nothing that existed has been changed; when
    the path does not exist and [auto_create] is off it raises [ValueError]
    and changes nothing. *)
Theorem set_path_stores_absolute (E : Env) (expanduser : string → string)
    (readme config : string) (auto_create : bool) (path : string)
    (fs : filesystem) :
  posixpath.isabs (getcwd E) = true →
  (∀ fs' self,
     folder_create.set_path E expanduser
       (folder_create.TEMPLATES readme config) auto_create path fs
     = (fs', inr self) →
     posixpath.isabs (_path self) = true
     ∧ os.path_exists E fs' (_path self) = true
     ∧ fs ⊆ fs')
  ∧ (auto_create = false →
     os.path_exists E fs
       (posixpath.abspath (getcwd E) (expanduser path)) = false →
     folder_create.set_path E expanduser
       (folder_create.TEMPLATES readme config) auto_create path fs
     = (fs, inl (Raised ValueError))).
Proof.
  intros Hcwd. unfold folder_create.set_path.
  set (p := posixpath.abspath (getcwd E) (expanduser path)).
  assert (posixpath.isabs p = true) as Hp by by apply abspath_isabs.
  split.
  - intros fs' self.
    destruct (os.path_exists E fs p) eqn:Hex; simpl.
    + intros [= <- <-]. by repeat split.
    + destruct auto_create; [|done].
      unfold bindx.
      pose proof (create_subseteq_fs E (folder_create.TEMPLATES readme config)
                    (posixpath.abspath (getcwd E) p) fs) as Hsub.
      destruct (folder_create.create E _ (posixpath.abspath (getcwd E) p) fs)
        as [fs1 [e|r]] eqn:Hcreate; [done|].
      unfold retx. intros [= <- <-]. simpl in *.
      apply create_returns_inv in Hcreate as (Hr & _ & Hdir & _); [|done].
      assert (startswith "file://" (posixpath.abspath (getcwd E) p) = false)
        as Hfile.
      { pose proof (abspath_isabs (getcwd E) p Hcwd) as Ha.
        destruct (posixpath.abspath (getcwd E) p) as [|a s]; [done|].
        unfold posixpath.isabs in Ha. simpl in Ha.
        apply Ascii.eqb_eq in Ha as ->. done. }
      rewrite Hfile in Hr.
      rewrite abspath_idempotent in Hr by done. subst r.
      repeat split; try done.
      * by apply abspath_isabs.
      * by apply isdir_path_exists.
  - intros -> Hex. by rewrite Hex.
Qed.

Lemma set_path_stores_absolute_witness :
  posixpath.isabs "/srv/repo" = true
  ∧ os.path_exists example.E sample.fs_created "/srv/repo" = true
  ∧ sample.fs_package ⊆ sample.fs_created.
Proof.
  destruct (set_path_stores_absolute example.E (λ p, p)
              sample.readme_template sample.config_template true
              "/srv/x/../repo" sample.fs_package eq_refl) as [Hok _].
  apply (Hok sample.fs_created {| _path := "/srv/repo" |}).
  compute_done.
Defined.

(** X5.  [create] of [kr.py]: it never writes over a file; when [filename]
    exists it raises [ValueError] and changes nothing.  When it returns,
    [filename] did not exist before, holds the bytes of the template now,
    and nothing else has changed. *)
Theorem kr_create_copies_template (E : Env) (pkg format filename : string)
    (template : option string) (fs : filesystem) :
  (os.path_exists E fs filename = true →
   kr.create E pkg format filename template fs
   = (fs, inl (Raised ValueError)))
  ∧ (∀ fs',
       kr.create E pkg format filename template fs = (fs', inr tt) →
       os.path_exists E fs filename = false
       ∧ fs ⊆ fs'
       ∧ ∃ data,
           files.read_binary E
             (if builtins.truthy template then default "" template
              else pkg +:+ "/templates/knowledge_template." +:+ format) fs
           = inr data
           ∧ files.read_binary E filename fs' = inr data).
Proof.
  unfold kr.create.
  set (src := match template with
              | Some (String _ _ as t) => t
              | _ => pkg +:+ "/templates/knowledge_template." +:+ format
              end).
  assert ((if builtins.truthy template then default "" template
           else pkg +:+ "/templates/knowledge_template." +:+ format) = src)
    as -> by (by destruct template as [[|??]|]).
  split.
  - intros Hex. rewrite Hex. by destruct (negb _).
  - intros fs'. destruct (negb (os.path_exists E fs src)); [done|].
    destruct (os.path_exists E fs filename) eqn:Hex; [done|].
    destruct (copy_to_missing E src filename fs Hex) as [Hsub Hcopy].
    unfold bindx.
    destruct (shutil_copy.copy E src filename fs) as [fs1 [e|r]];
      simpl in *; [done|].
    unfold retx. intros [= <-].
    destruct (Hcopy r eq_refl) as (_ & data & Hsrc & Hdst). eauto.
Qed.

Lemma kr_create_copies_template_witness :
  kr.create example.E "/pkg" "md" "/pkg/templates/knowledge_template.md" None
    sample.fs_package
  = (sample.fs_package, inl (Raised ValueError))
  ∧ ∃ data,
      files.read_binary example.E "/pkg/templates/knowledge_template.md"
        sample.fs_package = inr data
      ∧ files.read_binary example.E "/pkg/post.md"
          (kr.create example.E "/pkg" "md" "/pkg/post.md" None
             sample.fs_package).1 = inr data.
Proof.
  split.
  - apply (kr_create_copies_template example.E "/pkg" "md"
             "/pkg/templates/knowledge_template.md" None sample.fs_package).
    compute_done.
  - destruct (kr_create_copies_template example.E "/pkg" "md" "/pkg/post.md"
                None sample.fs_package) as [_ Hok].
    destruct (Hok (kr.create example.E "/pkg" "md" "/pkg/post.md" None
                     sample.fs_package).1) as (_ & _ & data & H1 & H2).
    + compute_done.
    + exists data. split; [exact H1|exact H2].
Defined.

(** ** More on the reference store *)

Section ReferenceStoreMore.

Context (E : Env) (self : FolderKnowledgeRepository) (path : string).
Local Abbreviation P := (posixpath.join (_path self) path).
Hypothesis path_absolute : posixpath.isabs (_path self) = true.

(** After a write in the expanded branch the post is a directory. *)
Lemma kp_write_ref_expanded_isdir reference data fs fs' :
  os.isfile E fs P = false →
  os.isdir E fs P = true ∨ posixpath.startswith_sep reference = false →
  folder._kp_write_ref E self path reference data fs = (fs', inr tt) →
  os.isdir E fs' P = true
  ∧ files.read_binary E (posixpath.join P reference) fs' = inr data.
Proof.
  intros Hfile Hpost Hw.
  destruct (kp_write_ref_expanded E self path reference data fs fs' Hfile Hw)
    as (fs1 & Hsub & Hw1).
  split; [|by eapply write_binary_read].
  eapply isdir_kept; [by eapply write_binary_dirs_kept|].
  destruct Hpost as [Hdir|Hrel].
  - eapply isdir_kept; [by apply subseteq_dirs_kept|done].
  - apply write_binary_inv in Hw1 as (c & Hr & _).
    rewrite resolve_join in Hr by (done || by apply isabs_join).
    destruct (os.resolve E fs1 P) as [e|cP] eqn:HP; [done|].
    apply isdir_spec. exists cP. split; [done|].
    pose proof (split_sep_nonempty reference).
    destruct (posixpath.split_sep reference); [done|].
    by eapply lookup_from_cons_dir.
Qed.

(** The enumeration of an expanded post lists the plain files of its
    root. *)
Lemma kp_dir_expanded_lists fs name data :
  os.isdir E fs P = true →
  plain_name name →
  files.read_binary E (posixpath.join P name) fs = inr data →
  ∃ names, folder._kp_dir E self path None fs = inr names ∧ name ∈ names.
Proof.
  intros Hdir Hname (c1 & Hr1 & Hc1)%read_binary_spec.
  assert (posixpath.isabs P = true) as HP by by apply isabs_join.
  unfold folder._kp_dir. rewrite Hdir.
  rewrite (join_absolute (_path self) P HP).
  destruct (sequence_total
              (flat_map (folder._kp_dir_names E self P) (os.walk E fs P)))
    as (names & Hseq & Hnames).
  { intros x. apply kp_dir_names_total. by apply isabs_nonempty. }
  exists names. split; [done|].
  apply list_elem_of_In, Hnames.
  apply resolve_join_plain in Hr1 as (c & Hc & HcDir & ->); [|done..].
  destruct (walk_top E fs P c Hc HcDir) as (dirs & nondirs & rest & -> & Hfiles).
  apply in_flat_map. exists (P, dirs, nondirs). split; [by left|].
  rewrite kp_dir_names_all by by apply isabs_nonempty.
  apply in_map_iff. exists name. split; [|by eapply Hfiles].
  rewrite (join_absolute (_path self) P HP). by apply relpath_child.
Qed.

End ReferenceStoreMore.

(** X6.  After [_kp_write_ref] has returned, for a post stored in either
    form or a relative reference name: [_kp_has_ref] finds the reference,
    [_kp_exists] finds the post, and the post has the form it had (a packed
    post is still one file, an expanded post still a directory). *)
Theorem kp_write_then_has_ref (E : Env) (self : FolderKnowledgeRepository)
    (path reference : string) (data : bytes) (fs fs' : filesystem) :
  posixpath.isabs (_path self) = true →
  kp_roundtrip E →
  os.isdir E fs (posixpath.join (_path self) path) = true
  ∨ os.isfile E fs (posixpath.join (_path self) path) = true
  ∨ posixpath.startswith_sep reference = false →
  folder._kp_write_ref E self path reference data fs = (fs', inr tt) →
  folder._kp_has_ref E self path reference fs' = inr true
  ∧ folder._kp_exists E self path fs' = true
  ∧ (os.isfile E fs (posixpath.join (_path self) path) = true →
     os.isfile E fs' (posixpath.join (_path self) path) = true)
  ∧ (os.isdir E fs (posixpath.join (_path self) path) = true →
     os.isdir E fs' (posixpath.join (_path self) path) = true).
Proof.
  intros Habs Hrt Hpost Hw.
  unfold folder._kp_has_ref, folder._kp_exists.
  set (P := posixpath.join (_path self) path) in *.
  destruct (os.isfile E fs P) eqn:Hfile.
  - destruct (kp_write_ref_packed E self path Hrt reference data fs fs'
                Hfile Hw) as (kp & _ & Hdir & Hkp).
    fold P in Hdir, Hkp. rewrite Hdir, Hkp.
    pose proof (from_file_isfile E P fs' _ Hkp) as Hfile'.
    repeat split.
    + unfold KnowledgePost._has_ref, KnowledgePost._write_ref. simpl.
      by rewrite lookup_insert_eq.
    + by apply isfile_path_exists.
    + done.
    + intros Hd. apply isdir_not_isfile in Hd. congruence.
  - destruct (kp_write_ref_expanded_isdir E self path Habs reference data
                fs fs' Hfile) as [Hdir Hread]; [|done|].
    { destruct Hpost as [?|[?|?]]; [by left|congruence|by right]. }
    fold P in Hdir, Hread. rewrite Hdir.
    repeat split; try done.
    + f_equal. by eapply read_binary_isfile.
    + by apply isdir_path_exists.
Qed.

Lemma kp_write_then_has_ref_witness :
  folder._kp_has_ref example.E example.repo "new.kp" "img/a.png"
    (folder._kp_write_ref example.E example.repo "new.kp" "img/a.png"
       [x89; x50] example.fs_empty).1
  = inr true.
Proof.
  apply (kp_write_then_has_ref example.E example.repo "new.kp" "img/a.png"
           [x89; x50] example.fs_empty).
  - reflexivity.
  - exact example_roundtrip.
  - right. right. reflexivity.
  - compute_done.
Defined.

(** X7.  [_kp_has_ref] and [_kp_read_ref] agree: the probe answers true
    exactly when the reference can be read, and where the probe raises the
    read raises the same error. *)
Theorem kp_has_ref_agrees_with_read (E : Env)
    (self : FolderKnowledgeRepository) (path reference : string)
    (fs : filesystem) :
  posixpath.isabs (_path self) = true →
  (∀ b, folder._kp_has_ref E self path reference fs = inr b →
        (b = true ↔ ∃ data,
            folder._kp_read_ref E self path reference fs = inr data))
  ∧ (∀ e, folder._kp_has_ref E self path reference fs = inl e →
          folder._kp_read_ref E self path reference fs = inl e).
Proof.
  intros Habs. unfold folder._kp_has_ref, folder._kp_read_ref.
  rewrite join_join_absolute by done.
  set (P := posixpath.join (_path self) path).
  destruct (os.isdir E fs P).
  - split; [|done]. intros b [= <-]. split.
    + intros (c & data & Hr & Hc)%isfile_spec. exists data.
      apply read_binary_spec. eauto.
    + intros [data Hd]. by eapply read_binary_isfile.
  - destruct (KnowledgePost.from_file E P fs) as [e|kp]; [split; congruence|].
    split; [|done]. intros b [= <-].
    unfold KnowledgePost._has_ref, KnowledgePost._read_ref.
    destruct (post.references kp !! reference) as [d|]; split.
    + eauto.
    + intros _. apply bool_decide_eq_true. eauto.
    + intros [? ?]%bool_decide_eq_true. done.
    + by intros [? ?].
Qed.

Lemma kp_has_ref_agrees_with_read_witness :
  ∃ data,
    folder._kp_read_ref example.E example.repo "post.kp" "knowledge.md"
      example.fs_packed = inr data.
Proof.
  destruct (kp_has_ref_agrees_with_read example.E example.repo "post.kp"
              "knowledge.md" example.fs_packed eq_refl) as [Hb _].
  apply (Hb true); [compute_done|reflexivity].
Defined.

(** X8.  A revision bump touches the reserved references only: a reference
    with a plain name other than [REVISION] and [UUID] holds after
    [_kp_new_revision] what it held before. *)
Theorem kp_new_revision_keeps_content (E : Env)
    (self : FolderKnowledgeRepository) (path other : string)
    (uuid : option string) (old : bytes) (fs fs' : filesystem) :
  posixpath.isabs (_path self) = true →
  kp_roundtrip E →
  plain_name other → other ≠ "REVISION" → other ≠ "UUID" →
  folder._kp_read_ref E self path other fs = inr old →
  folder._kp_new_revision E self path uuid fs = (fs', inr tt) →
  folder._kp_read_ref E self path other fs' = inr old.
Proof.
  intros Habs Hrt Hother Hrev Huuid Hold
    (r & fs1 & _ & Hw1 & Hw2)%kp_new_revision_inv.
  assert (folder._kp_read_ref E self path other fs1 = inr old) as Hold1.
  { eapply (kp_write_ref_other E self path Habs Hrt "REVISION");
      eauto using plain_REVISION. }
  destruct (builtins.truthy uuid); [|by subst].
  eapply (kp_write_ref_other E self path Habs Hrt "UUID");
    eauto using plain_UUID.
Qed.

Lemma kp_new_revision_keeps_content_witness :
  folder._kp_read_ref example.E example.repo "post.kp" "knowledge.md"
    (folder._kp_new_revision example.E example.repo "post.kp"
       (Some "0f0f") example.fs_packed).1
  = inr (list_byte_of_string "# T").
Proof.
  apply (kp_new_revision_keeps_content example.E example.repo "post.kp"
           "knowledge.md" (Some "0f0f") (list_byte_of_string "# T")
           example.fs_packed).
  - reflexivity.
  - exact example_roundtrip.
  - by repeat split.
  - discriminate.
  - discriminate.
  - compute_done.
  - compute_done.
Defined.

(** X9.  [_remove] on an expanded post returns; when [_remove] has
    returned, only entries have gone, the post does not exist any more, and
    [_kp_has_ref] raises for every reference name. *)
Theorem remove_expanded_post (E : Env) (self : FolderKnowledgeRepository)
    (path : string) (fs : filesystem) :
  (os.isdir E fs (posixpath.join (_path self) path) = true →
   ∃ fs', folder._remove E self path fs = (fs', inr tt))
  ∧ (∀ fs',
       folder._remove E self path fs = (fs', inr tt) →
       fs' ⊆ fs
       ∧ folder._kp_exists E self path fs' = false
       ∧ ∀ reference,
           ∃ e, folder._kp_has_ref E self path reference fs' = inl e).
Proof.
  split.
  - intros (c & Hr & Hc)%isdir_spec. unfold folder._remove, shutil.rmtree.
    rewrite Hr, Hc. eauto.
  - intros fs' Hrm. split; [|split].
    + revert Hrm. unfold folder._remove, shutil.rmtree.
      destruct (os.resolve E fs _) as [e|c]; [done|].
      destruct (fs !! c) as [[|]|]; try done. intros [= <-].
      apply map_filter_subseteq.
    + by destruct (remove_expanded_then_has_ref E self path "" fs fs' Hrm).
    + intros reference.
      by destruct (remove_expanded_then_has_ref E self path reference fs fs'
                     Hrm).
Qed.

Lemma remove_expanded_post_witness :
  folder._kp_exists example.E example.repo "post.kp" example.fs_empty = false.
Proof.
  destruct (remove_expanded_post example.E example.repo "post.kp"
              example.fs_expanded) as [_ Hafter].
  destruct (Hafter example.fs_empty) as (_ & Hgone & _).
  - compute_done.
  - exact Hgone.
Defined.

(** X10.  A reference written under a plain name to an expanded post, or
    to a path where no post is, is listed by [_kp_dir] under that name. *)
Theorem kp_write_then_listed (E : Env) (self : FolderKnowledgeRepository)
    (path name : string) (data : bytes) (fs fs' : filesystem) :
  posixpath.isabs (_path self) = true →
  plain_name name →
  os.isfile E fs (posixpath.join (_path self) path) = false →
  folder._kp_write_ref E self path name data fs = (fs', inr tt) →
  ∃ names, folder._kp_dir E self path None fs' = inr names ∧ name ∈ names.
Proof.
  intros Habs Hname Hfile Hw.
  destruct (kp_write_ref_expanded_isdir E self path Habs name data fs fs'
              Hfile) as [Hdir Hread]; [|done|].
  { right. by apply plain_name_relative. }
  by eapply kp_dir_expanded_lists.
Qed.

Lemma kp_write_then_listed_witness :
  ∃ names,
    folder._kp_dir example.E example.repo "new.kp" None
      (folder._kp_write_ref example.E example.repo "new.kp" "knowledge.md"
         [x23] example.fs_empty).1
    = inr names
    ∧ "knowledge.md" ∈ names.
Proof.
  apply (kp_write_then_listed example.E example.repo "new.kp" "knowledge.md"
           [x23] example.fs_empty).
  - reflexivity.
  - by repeat split.
  - compute_done.
  - compute_done.
Defined.

(** ** Listing the posts *)

Lemma prefix_String (a b : ascii) (s t : string) :
  String.prefix (String a s) (String b t)
  = if ascii_dec a b then String.prefix s t else false.
Proof. reflexivity. Qed.

Lemma endswith_String (suf : string) (c : ascii) (s : string) :
  folder_dir.endswith suf (String c s)
  = String.eqb suf (String c s) || folder_dir.endswith suf s.
Proof. reflexivity. Qed.

Lemma endswith_append (suf a b : string) :
  folder_dir.endswith suf b = true → folder_dir.endswith suf (a +:+ b) = true.
Proof.
  intros Hb. induction a as [|c a IH]; [done|].
  rewrite append_String, endswith_String, IH. apply orb_true_r.
Qed.

Lemma endswith_join (suf a b : string) :
  folder_dir.endswith suf b = true →
  folder_dir.endswith suf (posixpath.join a b) = true.
Proof.
  intros Hb. unfold posixpath.join.
  destruct (posixpath.startswith_sep b); [done|].
  destruct (_ || _); [by apply endswith_append|].
  by do 2 apply endswith_append.
Qed.

Lemma startswith_dot_slash (s : string) :
  startswith "./" s = true →
  s = String "." (String "/" (folder_dir.drop_chars 2 s)).
Proof.
  unfold startswith. destruct s as [|a [|b rest]]; try done.
  - rewrite prefix_String. by destruct (ascii_dec _ _).
  - rewrite !prefix_String.
    destruct (ascii_dec _ a) as [<-|]; [|done].
    by destruct (ascii_dec _ b) as [<-|].
Qed.

(** Taking [./] off the front of a name leaves its [.kp] at the end. *)
Lemma strip_dot_slash_kp (s : string) :
  folder_dir.endswith ".kp" s = true →
  folder_dir.endswith ".kp" (folder_dir.strip_dot_slash s) = true.
Proof.
  unfold folder_dir.strip_dot_slash.
  destruct (startswith "./" s) eqn:Hs; [|done].
  apply startswith_dot_slash in Hs. rewrite Hs at 1.
  rewrite !endswith_String.
  by intros [H|[H|H]%orb_true_iff]%orb_true_iff.
Qed.

Lemma strip_dot_slash_join (name : string) :
  posixpath.startswith_sep name = false →
  folder_dir.strip_dot_slash (posixpath.join "." name) = name.
Proof.
  intros Hn. unfold posixpath.join. rewrite Hn. simpl.
  rewrite !append_String, append_empty.
  unfold folder_dir.strip_dot_slash, startswith.
  rewrite !prefix_String.
  destruct (ascii_dec _ _); [|done]. destruct (ascii_dec _ _); [|done].
  by rewrite prefix_empty.
Qed.

Lemma existsb_is_published (statuses : list PostStatus) :
  existsb folder_dir.is_published statuses = true ↔ In PUBLISHED statuses.
Proof.
  rewrite existsb_exists. split.
  - intros (s & Hs & Hp). by destruct s.
  - intros Hs. by exists PUBLISHED.
Qed.

(** *** The loop that takes hidden folders out *)

Lemma list_remove_sublist (x : string) (l : list string) :
  sublist (folder_dir.list_remove x l) l.
Proof.
  induction l as [|y l IH]; simpl; [done|].
  destruct (String.eqb y x); [by apply sublist_cons|by apply sublist_skip].
Qed.

Lemma list_remove_filter (f : string → bool) (x : string) (l : list string) :
  f x = false →
  List.filter f (folder_dir.list_remove x l) = List.filter f l.
Proof.
  intros Hx. induction l as [|y l IH]; simpl; [done|].
  destruct (String.eqb y x) eqn:Hy.
  - apply String.eqb_eq in Hy as ->. by rewrite Hx.
  - simpl. by rewrite IH.
Qed.

Lemma list_remove_app (pre : list string) (x : string) (l : list string) :
  x ∉ pre → folder_dir.list_remove x (pre ++ x :: l) = pre ++ l.
Proof.
  induction pre as [|y pre IH]; simpl; intros Hx.
  - by rewrite String.eqb_refl.
  - apply not_elem_of_cons in Hx as [Hxy Hx].
    destruct (String.eqb y x) eqn:Hy; [by apply String.eqb_eq in Hy|].
    by rewrite IH.
Qed.

Lemma remove_hidden_from_keeps (fuel : nat) :
  ∀ (i : nat) (folders : list string),
    sublist (folder_dir.remove_hidden_from fuel i folders) folders
    ∧ List.filter visible (folder_dir.remove_hidden_from fuel i folders)
      = List.filter visible folders.
Proof.
  induction fuel as [|fuel IH]; intros i folders; simpl; [done|].
  destruct (folders !! i) as [folder|]; [|done].
  destruct (IH (S i) (if startswith "." folder
                      then folder_dir.list_remove folder folders
                      else folders)) as [Hsub Hfil].
  destruct (startswith "." folder) eqn:Hh; [|done].
  split.
  - etrans; [done|]. apply list_remove_sublist.
  - rewrite Hfil. apply list_remove_filter. unfold visible. by rewrite Hh.
Qed.

Lemma remove_hidden_from_skip (fuel : nat) :
  ∀ (pre rest : list string),
    (length rest ≤ fuel)%nat → NoDup (pre ++ rest) →
    folder_dir.remove_hidden_from fuel (length pre) (pre ++ rest)
    = pre ++ skip_hidden rest.
Proof.
  induction fuel as [|fuel IH]; intros pre rest Hfuel Hnd.
  - destruct rest; [done|simpl in Hfuel; lia].
  - simpl. destruct rest as [|x rest].
    + simpl. rewrite !app_nil_r. by rewrite lookup_ge_None_2 by lia.
    + rewrite list_lookup_middle by done.
      apply NoDup_app in Hnd as (Hpre & Hdis & Hrest).
      destruct (startswith "." x) eqn:Hh.
      * rewrite list_remove_app by (intros ?; eapply Hdis; [done|by left]).
        simpl. rewrite Hh.
        apply NoDup_cons in Hrest as [Hx Hrest].
        destruct rest as [|y rest].
        { rewrite app_nil_r.
          destruct fuel; [done|]. simpl. by rewrite lookup_ge_None_2 by lia. }
        replace (S (length pre)) with (length (pre ++ [y]))
          by (rewrite length_app; simpl; lia).
        rewrite (cons_middle y pre rest), app_assoc.
        rewrite IH; [by rewrite <- app_assoc| simpl in *; lia|].
        rewrite <- app_assoc. simpl. apply NoDup_app. split; [done|].
        split; [|done]. intros z Hz Hz'. eapply Hdis; [done|by right].
      * simpl. rewrite Hh.
        replace (S (length pre)) with (length (pre ++ [x]))
          by (rewrite length_app; simpl; lia).
        rewrite (cons_middle x pre rest), app_assoc.
        rewrite IH; [by rewrite <- app_assoc| simpl in *; lia|].
        rewrite <- app_assoc. simpl. apply NoDup_app. done.
Qed.

Lemma remove_hidden_keeps (folder : string) (folders : list string) :
  startswith "." folder = false →
  folder ∈ folders → folder ∈ folder_dir.remove_hidden folders.
Proof.
  intros Hv Hin.
  destruct (remove_hidden_from_keeps (length folders) 0 folders)
    as [_ Hfil].
  assert (In folder (List.filter visible folders)) as Hf.
  { apply filter_In. split; [by apply list_elem_of_In|].
    unfold visible. by rewrite Hv. }
  rewrite <- Hfil in Hf. apply filter_In in Hf as [Hf _].
  by apply list_elem_of_In.
Qed.

(** X11.  The loop that takes the hidden folders out of [folders] never
    takes out a folder that is not hidden: what is left is a part of the
    list, in its order, with all the names that do not start with a dot. *)
Theorem remove_hidden_keeps_visible (folders : list string) :
  sublist (folder_dir.remove_hidden folders) folders
  ∧ ∀ folder,
      startswith "." folder = false →
      folder ∈ folders → folder ∈ folder_dir.remove_hidden folders.
Proof.
  split.
  - apply (remove_hidden_from_keeps (length folders) 0 folders).
  - intros folder. apply remove_hidden_keeps.
Qed.

(** X12.  For names that are all different, as the names of the folders of
    one directory are, the loop leaves what one pass leaves that drops a
    hidden name and does not look at the name that follows it: of two
    hidden folders in a row, the second one stays and is visited. *)
Theorem remove_hidden_skips_next (folders : list string) :
  NoDup folders →
  folder_dir.remove_hidden folders = skip_hidden folders.
Proof.
  intros Hnd.
  apply (remove_hidden_from_skip (length folders) [] folders); [lia|done].
Qed.

Lemma remove_hidden_skips_next_witness :
  folder_dir.remove_hidden [".git"; ".cache"; "team"] = [".cache"; "team"].
Proof.
  apply (remove_hidden_skips_next [".git"; ".cache"; "team"]).
  compute_done.
Defined.

(** *** The walk and the posts it finds *)

Lemma walk_visiting_rec_empty (fuel : nat) (E : Env) (fs : filesystem)
    (visit : list string → list string) :
  folder_dir.walk_visiting_rec fuel E fs visit "" = [].
Proof. by destruct fuel. Qed.

Lemma walk_visiting_rec_nonempty (fuel : nat) (E : Env) (fs : filesystem)
    (visit : list string → list string) :
  ∀ top t, top ≠ "" →
    In t (folder_dir.walk_visiting_rec fuel E fs visit top) → t.1.1 ≠ "".
Proof.
  induction fuel as [|fuel IH]; intros top t Htop; simpl; [done|].
  destruct (os.resolve E fs top) as [e|c]; [done|].
  destruct (fs !! c) as [[|]|]; try done.
  intros [<-|Hin]; [done|].
  apply in_concat in Hin as (l & Hl & Ht).
  apply in_map_iff in Hl as (d & <- & _).
  eapply IH; [|done]. by apply join_nonempty.
Qed.

(** The walk of something that is no directory has no triple. *)
Lemma walk_visiting_not_dir (E : Env) (fs : filesystem)
    (visit : list string → list string) (top : string) :
  os.isdir E fs top = false → folder_dir.walk_visiting E fs visit top = [].
Proof.
  intros Hd. unfold folder_dir.walk_visiting. simpl.
  destruct (os.resolve E fs top) as [e|c] eqn:Hr; [done|].
  destruct (fs !! c) as [[|]|] eqn:Hc; try done.
  assert (os.isdir E fs top = true) by (apply isdir_spec; eauto). congruence.
Qed.

(** The first triple of the walk of a directory is the directory itself,
    with the names of its entries. *)
Lemma walk_visiting_top (E : Env) (fs : filesystem)
    (visit : list string → list string) (top : string) (c : list string) :
  os.resolve E fs top = inr c → fs !! c = Some Dir →
  ∃ dirs nondirs rest,
    folder_dir.walk_visiting E fs visit top = (top, visit dirs, nondirs) :: rest
    ∧ (∀ name data, fs !! (c ++ [name]) = Some (File data) → In name nondirs)
    ∧ (∀ name, fs !! (c ++ [name]) = Some Dir → name ∈ dirs).
Proof.
  intros Hr Hc. unfold folder_dir.walk_visiting. simpl. rewrite Hr, Hc.
  do 3 eexists. split; [done|]. split.
  - intros name data Hn. apply list_elem_of_In, list_elem_of_fmap.
    exists (name, File data). split; [done|].
    apply list_elem_of_filter. split; [by intros []|by apply scandir_entry].
  - intros name Hn. apply list_elem_of_fmap.
    exists (name, Dir). split; [done|].
    apply list_elem_of_filter. split; [done|by apply scandir_entry].
Qed.

Lemma posts_of_inr (E : Env) (self : FolderKnowledgeRepository)
    (t : string * list string * list string) (x : result string) :
  t.1.1 ≠ "" → In x (folder_dir.posts_of E self t) →
  ∃ post, x = inr post ∧ folder_dir.endswith ".kp" post = true.
Proof.
  destruct t as [[path folders] files]. simpl. intros Hp Hx.
  destruct (relpath_total (getcwd E) path (_path self) Hp) as [rel Hrel].
  rewrite Hrel in Hx.
  apply in_app_or in Hx as [Hx|Hx];
    apply in_map_iff in Hx as (name & <- & [_ Hkp]%filter_In);
    eexists; (split; [done|by apply endswith_join]).
Qed.

Lemma sequence_inr {A} (l : list (result A)) (names : list A) :
  sequence l = inr names → l = map inr names.
Proof.
  revert names. induction l as [|[e|a] l IH]; intros names; simpl.
  - by intros [= <-].
  - done.
  - destruct (sequence l) as [e|r]; [done|]. intros [= <-].
    simpl. by rewrite (IH r).
Qed.

(** What [_dir] collects for a walk: [relpath] raises nowhere, and every
    path ends with [.kp]. *)
Lemma dir_posts_total (E : Env) (self : FolderKnowledgeRepository)
    (fs : filesystem) (top : string) :
  ∃ names,
    sequence (flat_map (folder_dir.posts_of E self)
                (folder_dir.walk_visiting E fs folder_dir.remove_hidden top))
    = inr names
    ∧ (∀ post,
         In (inr post)
            (flat_map (folder_dir.posts_of E self)
               (folder_dir.walk_visiting E fs folder_dir.remove_hidden top))
         → In post names)
    ∧ ∀ post, In post names → folder_dir.endswith ".kp" post = true.
Proof.
  assert (∀ x,
    In x (flat_map (folder_dir.posts_of E self)
            (folder_dir.walk_visiting E fs folder_dir.remove_hidden top)) →
    ∃ post, x = inr post ∧ folder_dir.endswith ".kp" post = true) as Hall.
  { intros x (t & Ht & Hx)%in_flat_map.
    destruct (decide (top = "")) as [->|Htop].
    - unfold folder_dir.walk_visiting in Ht.
      by rewrite walk_visiting_rec_empty in Ht.
    - eapply posts_of_inr; [|done].
      by eapply walk_visiting_rec_nonempty. }
  destruct (sequence_total
              (flat_map (folder_dir.posts_of E self)
                 (folder_dir.walk_visiting E fs folder_dir.remove_hidden top)))
    as (names & Hseq & Hnames).
  { intros x Hx. destruct (Hall x Hx) as (post & -> & _). eauto. }
  exists names. split; [done|]. split; [done|].
  intros post Hpost. apply sequence_inr in Hseq.
  destruct (Hall (inr post)) as (post' & [= <-] & Hkp); [|done].
  rewrite Hseq. by apply in_map.
Qed.

Lemma dir_prefix (prefix : option string) :
  match prefix with
  | Some (String _ _ as prefix) => prefix
  | _ => ""
  end = default "" prefix.
Proof. by destruct prefix as [[|??]|]. Qed.

Lemma elem_of_dir_result (names : list string) (post : string) :
  post ∈ merge_sort String.le
           (map folder_dir.strip_dot_slash (remove_dups names))
  ↔ ∃ name, In name names ∧ post = folder_dir.strip_dot_slash name.
Proof.
  rewrite merge_sort_Permutation, list_elem_of_In, in_map_iff.
  split.
  - intros (name & <- & Hin). exists name. split; [|done].
    by rewrite <- list_elem_of_In, elem_of_remove_dups, list_elem_of_In in Hin.
  - intros (name & Hin & ->). exists name. split; [done|].
    by rewrite <- list_elem_of_In, elem_of_remove_dups, list_elem_of_In.
Qed.

Lemma relpath_join_empty (cwd P : string) :
  posixpath.isabs P = true →
  posixpath.relpath cwd (posixpath.join P "") P = inr ".".
Proof.
  intros HP.
  assert (posixpath.isabs (posixpath.join P "") = true) as HPr
    by by apply isabs_join.
  unfold posixpath.relpath, posixpath.abspath. rewrite HP, HPr.
  destruct (String.eqb (posixpath.join P "") "") eqn:Hne.
  { apply String.eqb_eq in Hne. by rewrite Hne in HPr. }
  rewrite !normpath_absolute by done.
  destruct (split_sep_join_relative P "" HP eq_refl) as (pre & -> & Hpre).
  assert (fold_left (posixpath.normpath_step 1) (posixpath.split_sep P) []
          = fold_left (posixpath.normpath_step 1) pre []) as ->
    by (destruct Hpre as [->| ->]; [done|by rewrite fold_left_app]).
  rewrite fold_left_app. simpl.
  change (posixpath.normpath_step 1 ?acc "") with acc.
  set (l := fold_left (posixpath.normpath_step 1) pre []).
  pose proof (commonprefix_len_app l []) as Hl. rewrite app_nil_r in Hl.
  by rewrite Hl, Nat.sub_diag, drop_all.
Qed.

Lemma resolve_join_empty (E : Env) (fs : filesystem) (P : string)
    (c : list string) :
  posixpath.isabs P = true →
  os.resolve E fs P = inr c → fs !! c = Some Dir →
  os.resolve E fs (posixpath.join P "") = inr c.
Proof.
  intros HP Hr Hc. rewrite resolve_join by done. rewrite Hr. simpl.
  by rewrite Hc.
Qed.

(** X13.  [_dir] returns for every prefix and every list of statuses: its
    posts come in ascending order, each one ends with [.kp], and there is
    none when [PUBLISHED] is not among the statuses or the folder to list is
    no directory. *)
Theorem dir_yields_sorted_posts (E : Env) (self : FolderKnowledgeRepository)
    (prefix : option string) (statuses : list PostStatus) (fs : filesystem) :
  ∃ posts,
    folder_dir._dir E self prefix statuses fs = inr posts
    ∧ Sorted String.le posts
    ∧ (∀ post, post ∈ posts → folder_dir.endswith ".kp" post = true)
    ∧ (¬ In PUBLISHED statuses → posts = [])
    ∧ (os.isdir E fs (posixpath.join (_path self) (default "" prefix)) = false
       → posts = []).
Proof.
  unfold folder_dir._dir. rewrite dir_prefix.
  set (top := posixpath.join (_path self) (default "" prefix)).
  destruct (existsb folder_dir.is_published statuses) eqn:Hpub.
  - destruct (dir_posts_total E self fs top) as (names & Hseq & _ & Hkp).
    rewrite Hseq. eexists. split; [done|]. split; [|split; [|split]].
    + apply (Sorted_merge_sort _).
    + intros post (name & Hn & ->)%elem_of_dir_result.
      by apply strip_dot_slash_kp, Hkp.
    + intros Hno. by apply existsb_is_published in Hpub.
    + intros Hd. rewrite (walk_visiting_not_dir _ _ _ _ Hd) in Hseq.
      by injection Hseq as <-.
  - exists []. repeat split; try done. by intros post ?%elem_of_nil.
Qed.

(** X14.  With [PUBLISHED] among the statuses and no prefix, [_dir] lists
    under its own name every post that lies in the folder of the repository
    itself: a file with a plain name that ends with [.kp], and a directory
    with such a name that does not start with a dot. *)
Theorem dir_lists_root_posts (E : Env) (self : FolderKnowledgeRepository)
    (statuses : list PostStatus) (name : string) (fs : filesystem) :
  posixpath.isabs (_path self) = true →
  In PUBLISHED statuses →
  plain_name name → folder_dir.endswith ".kp" name = true →
  os.isfile E fs (posixpath.join (_path self) name) = true
  ∨ (os.isdir E fs (posixpath.join (_path self) name) = true
     ∧ startswith "." name = false) →
  ∃ posts,
    folder_dir._dir E self None statuses fs = inr posts ∧ name ∈ posts.
Proof.
  intros Habs Hpub%existsb_is_published Hname Hkp Hpost.
  unfold folder_dir._dir. rewrite Hpub.
  set (top := posixpath.join (_path self) "").
  destruct (dir_posts_total E self fs top) as (names & Hseq & Hnames & _).
  rewrite Hseq. eexists. split; [done|].
  apply elem_of_dir_result. exists (posixpath.join "." name).
  split; [|by rewrite strip_dot_slash_join by by apply plain_name_relative].
  apply Hnames.
  assert (∃ c n, os.resolve E fs (posixpath.join (_path self) name) = inr c
                 ∧ fs !! c = Some n
                 ∧ (n = Dir → startswith "." name = false))
    as (c & n & Hr & Hc & Hn).
  { destruct Hpost as [(c & data & Hr & Hc)%isfile_spec
                      |[(c & Hr & Hc)%isdir_spec Hv]].
    - by exists c, (File data).
    - by exists c, Dir. }
  apply resolve_join_plain in Hr as (cP & HcP & HcPd & ->); [|done..].
  destruct (walk_visiting_top E fs folder_dir.remove_hidden top cP)
    as (dirs & nondirs & rest & Hwalk & Hfiles & Hdirs);
    [by apply resolve_join_empty|done|].
  rewrite Hwalk. apply in_flat_map.
  exists (top, folder_dir.remove_hidden dirs, nondirs). split; [by left|].
  assert (posixpath.relpath (getcwd E) top (_path self) = inr ".") as Hrel
    by by apply relpath_join_empty.
  unfold folder_dir.posts_of. rewrite Hrel.
  apply in_or_app. destruct n as [|data].
  - left. apply in_map_iff. exists name. split; [done|].
    apply filter_In. split; [|done].
    apply list_elem_of_In, remove_hidden_keeps; [by apply Hn|by apply Hdirs].
  - right. apply in_map_iff. exists name. split; [done|].
    apply filter_In. split; [by eapply Hfiles|done].
Qed.

Lemma dir_lists_root_posts_witness :
  (∃ posts,
     folder_dir._dir example.E example.repo None [PUBLISHED] sample.fs_posts
     = inr posts ∧ "a.kp" ∈ posts)
  ∧ (∃ posts,
       folder_dir._dir example.E example.repo None [DRAFT; PUBLISHED]
         sample.fs_posts
       = inr posts ∧ "c.kp" ∈ posts).
Proof.
  split.
  - apply (dir_lists_root_posts example.E example.repo [PUBLISHED] "a.kp"
             sample.fs_posts).
    + reflexivity.
    + simpl. tauto.
    + by repeat split.
    + reflexivity.
    + left. compute_done.
  - apply (dir_lists_root_posts example.E example.repo [DRAFT; PUBLISHED]
             "c.kp" sample.fs_posts).
    + reflexivity.
    + simpl. tauto.
    + by repeat split.
    + reflexivity.
    + right. split; [compute_done|reflexivity].
Defined.

Example dir_sample :
  folder_dir._dir example.E example.repo None [PUBLISHED] sample.fs_posts
  = inr ["a.kp"; "c.kp"; "team/b.kp"].
Proof. compute_done. Qed.

(** ** More on the hook-aware commit *)

(** The steps of [commit] from the scratch file to the [commit-msg] hook:
    the hook is run on the file that holds the message given, and what it
    leaves there is what the file holds afterwards. *)
Lemma commit_msg_step (message : string) (st sta : git.Repo)
    (run : list string → option string → git.hook_run) :
  same_objects st sta →
  git.hooks st (git.hook_path "commit-msg" (git.git_dir st))
  = git.Executable run →
  ∃ stc,
    same_objects st stc
    ∧ git.COMMIT_EDITMSG stc
      = Some (default message
                (git.edited_message
                   (run [git._commit_editmsg_filepath st] (Some message))))
    ∧ git.run_commit_hook "commit-msg"
        [git._commit_editmsg_filepath (git.set_editmsg sta (Some message))]
        (git.set_editmsg sta (Some message))
      = (stc,
         if negb (Z.eqb (git.returncode
                           (run [git._commit_editmsg_filepath st]
                                (Some message))) 0)
         then inl (HookExecutionError
                     (git.hook_path "commit-msg" (git.git_dir st))
                     (ExitCode (git.returncode
                                  (run [git._commit_editmsg_filepath st]
                                       (Some message))))
                     (git.stderr (run [git._commit_editmsg_filepath st]
                                      (Some message)))
                     (git.stdout (run [git._commit_editmsg_filepath st]
                                      (Some message))))
         else inr tt).
Proof.
  intros Hsame Hhook.
  pose proof (same_objects_trans _ _ _ Hsame
                (set_editmsg_same_objects sta (Some message))) as Hsb.
  set (stb := git.set_editmsg sta (Some message)) in *.
  assert (git.COMMIT_EDITMSG stb = Some message) as Hmsg by done.
  destruct Hsb as (Hg & Hh & Hrest).
  unfold git.run_commit_hook, git._commit_editmsg_filepath.
  rewrite Hg, Hh, Hhook, Hmsg.
  set (process := run _ _).
  exists (match git.edited_message process with
          | Some m => git.set_editmsg stb (Some m)
          | None => stb
          end).
  split; [|split].
  - destruct (git.edited_message process).
    + eapply same_objects_trans; [|apply set_editmsg_same_objects].
      by split; [|split].
    + by split; [|split].
  - by destruct (git.edited_message process).
  - by destruct (negb _).
Qed.

(** X15.  With hooks enabled, when the [pre-commit] hook lets the commit
    pass and the [commit-msg] hook, run on the file that holds the message,
    exits with a code other than 0: [commit] raises [HookExecutionError]
    with that code and the captured output, no tree and no commit is made
    and [HEAD] stays, and the scratch file is left behind with what the
    hook made of the message. *)
Theorem commit_msg_hook_gate (message : string)
    (parent_commits : option (list nat)) (head : bool) (sig : git.Signature)
    (st : git.Repo) (run : list string → option string → git.hook_run) :
  git.hook_passes st "pre-commit" →
  git.hooks st (git.hook_path "commit-msg" (git.git_dir st))
  = git.Executable run →
  git.returncode (run [git._commit_editmsg_filepath st] (Some message))
  ≠ 0%Z →
  ∃ st',
    git.commit message parent_commits head sig false st
    = (st', inl (HookExecutionError
                   (git.hook_path "commit-msg" (git.git_dir st))
                   (ExitCode (git.returncode
                                (run [git._commit_editmsg_filepath st]
                                     (Some message))))
                   (git.stderr (run [git._commit_editmsg_filepath st]
                                    (Some message)))
                   (git.stdout (run [git._commit_editmsg_filepath st]
                                    (Some message)))))
    ∧ git.trees st' = git.trees st
    ∧ git.commits st' = git.commits st
    ∧ git.HEAD st' = git.HEAD st
    ∧ git.COMMIT_EDITMSG st'
      = Some (default message
                (git.edited_message
                   (run [git._commit_editmsg_filepath st] (Some message)))).
Proof.
  intros Hpre Hhook Hcode%Z.eqb_neq.
  destruct (run_commit_hook_passes "pre-commit" [] st Hpre)
    as (sta & Ha & Hsa).
  destruct (commit_msg_step message st sta run Hsa Hhook)
    as (stc & (_ & _ & _ & Ht & Hc & Hh) & He & Hrun).
  rewrite Hcode in Hrun. simpl in Hrun.
  exists stc. repeat split; try done.
  unfold git.commit. simpl negb. cbv iota.
  unfold bind at 1 2. rewrite Ha.
  unfold bind at 1, git._write_commit_editmsg at 1.
  unfold bind at 1. by rewrite Hrun.
Qed.

Lemma commit_msg_hook_gate_witness :
  ∃ st',
    git.commit "Add post" None true example.no_signature false
      example_hooks.commit_msg_fails
    = (st', inl (HookExecutionError "/repo/.git/hooks/commit-msg"
                   (ExitCode 1) "failed" "checking"))
    ∧ git.trees st' = [] ∧ git.commits st' = [] ∧ git.HEAD st' = None
    ∧ git.COMMIT_EDITMSG st' = Some "Add post".
Proof.
  apply (commit_msg_hook_gate "Add post" None true example.no_signature
           example_hooks.commit_msg_fails
           (λ _ _, {| git.returncode := 1; git.stdout := "checking";
                      git.stderr := "failed"; git.edited_message := None |})).
  - exact I.
  - reflexivity.
  - simpl. lia.
Defined.

(** X16.  With hooks enabled, when the [pre-commit] hook lets the commit
    pass: the commit is made with the message that the [commit-msg] hook
    has left in the scratch file if that hook is run and exits with 0, and
    with the message given if there is no executable [commit-msg] hook.
    Either way the commit is on the tree of the index and is the latest
    commit, whether the [post-commit] hook then fails or not. *)
Theorem commit_takes_message_from_hook (message : string)
    (parent_commits : option (list nat)) (head : bool) (sig : git.Signature)
    (st : git.Repo) :
  git.hook_passes st "pre-commit" →
  (∀ run,
     git.hooks st (git.hook_path "commit-msg" (git.git_dir st))
     = git.Executable run →
     git.returncode (run [git._commit_editmsg_filepath st] (Some message))
     = 0%Z →
     ∃ c,
       git.commits (git.commit message parent_commits head sig false st).1
       = c :: git.commits st
       ∧ git.message c
         = default message
             (git.edited_message
                (run [git._commit_editmsg_filepath st] (Some message)))
       ∧ git.tree c = git.index st)
  ∧ (git.hooks st (git.hook_path "commit-msg" (git.git_dir st))
     = git.NotExecutable →
     ∃ c,
       git.commits (git.commit message parent_commits head sig false st).1
       = c :: git.commits st
       ∧ git.message c = message
       ∧ git.tree c = git.index st).
Proof.
  intros Hpre.
  destruct (run_commit_hook_passes "pre-commit" [] st Hpre)
    as (sta & Ha & Hsa).
  assert (∀ stc m,
    same_objects st stc → git.COMMIT_EDITMSG stc = Some m →
    git.run_commit_hook "commit-msg"
      [git._commit_editmsg_filepath (git.set_editmsg sta (Some message))]
      (git.set_editmsg sta (Some message)) = (stc, inr tt) →
    ∃ c,
      git.commits (git.commit message parent_commits head sig false st).1
      = c :: git.commits st
      ∧ git.message c = m ∧ git.tree c = git.index st) as Hgo.
  { intros stc m (Hg & Hh & Hi & Ht & Hc & Hhd) He Hrun.
    unfold git.commit. simpl negb. cbv iota.
    unfold bind at 1 2. rewrite Ha.
    unfold bind at 1, git._write_commit_editmsg at 1.
    unfold bind at 1. rewrite Hrun.
    unfold bind at 1, git._read_commit_editmsg at 1. rewrite He.
    unfold bind at 1, git._remove_commit_editmsg at 1.
    unfold ret at 1. unfold bind at 1.
    rewrite write_tree_eq. unfold bind at 1.
    destruct (git.create_from_tree _ m parent_commits head sig _)
      as [st2 r] eqn:Hcreate.
    assert (∃ c, r = inr c ∧ git.message c = m) as (c & -> & Hm)
      by (revert Hcreate; unfold git.create_from_tree;
          intros [= _ <-]; by eexists).
    apply create_from_tree_inv in Hcreate
      as (Hg2 & Hh2 & Ht2 & Hc2 & He2 & Htree & Hhead).
    unfold bind at 1.
    destruct (git.run_commit_hook "post-commit" [] st2) as [st3 r3] eqn:Hpost.
    apply run_commit_hook_same_objects in Hpost
      as (_ & _ & _ & _ & Hc3 & _).
    exists c. split; [|split].
    - destruct r3; simpl; rewrite Hc3, Hc2; simpl; by rewrite Hc.
    - done.
    - by rewrite Htree. }
  split.
  - intros run Hhook Hcode.
    destruct (commit_msg_step message st sta run Hsa Hhook)
      as (stc & Hsc & He & Hrun).
    rewrite Hcode in Hrun. by eapply Hgo.
  - intros Hhook.
    pose proof (same_objects_trans _ _ _ Hsa
                  (set_editmsg_same_objects sta (Some message))) as Hsb.
    eapply (Hgo (git.set_editmsg sta (Some message))); [done|done|].
    destruct Hsb as (Hg & Hh & _).
    unfold git.run_commit_hook. by rewrite Hg, Hh, Hhook.
Qed.

Lemma commit_takes_message_from_hook_witness :
  ∃ c,
    git.commits
      (git.commit "Add post" None true example.no_signature false
         example_hooks.commit_msg_signs_off).1
    = [c]
    ∧ git.message c = "Add post (signed off)"
    ∧ git.tree c = [("post.kp/knowledge.md", list_byte_of_string "# T")].
Proof.
  destruct (commit_takes_message_from_hook "Add post" None true
              example.no_signature example_hooks.commit_msg_signs_off I)
    as [Hrun _].
  apply (Hrun (λ _ msg,
                 {| git.returncode := 0; git.stdout := ""; git.stderr := "";
                    git.edited_message :=
                      Some (default "" msg +:+ " (signed off)") |})).
  - reflexivity.
  - reflexivity.
Defined.

(** X17.  With [skip_hooks] set, [commit] returns whatever the hooks are:
    the commit has the message given and the tree of the index, and the
    scratch file is not touched.  When no hook is executable, a commit with
    hooks enabled returns the same commit and leaves the same objects. *)
Theorem commit_skip_hooks (message : string)
    (parent_commits : option (list nat)) (head : bool) (sig : git.Signature)
    (st : git.Repo) :
  (∃ st' c,
     git.commit message parent_commits head sig true st = (st', inr c)
     ∧ git.message c = message
     ∧ git.tree c = git.index st
     ∧ git.commits st' = c :: git.commits st
     ∧ git.trees st' = git.index st :: git.trees st
     ∧ git.hooks st' = git.hooks st
     ∧ git.COMMIT_EDITMSG st' = git.COMMIT_EDITMSG st)
  ∧ (git.hooks st (git.hook_path "pre-commit" (git.git_dir st))
     = git.NotExecutable →
     git.hooks st (git.hook_path "commit-msg" (git.git_dir st))
     = git.NotExecutable →
     git.hooks st (git.hook_path "post-commit" (git.git_dir st))
     = git.NotExecutable →
     (git.commit message parent_commits head sig false st).2
     = (git.commit message parent_commits head sig true st).2
     ∧ same_objects (git.commit message parent_commits head sig true st).1
         (git.commit message parent_commits head sig false st).1).
Proof.
  split.
  - do 2 eexists. by repeat split.
  - intros Hpre Hmsg Hpost.
    unfold git.commit, bind, git.run_commit_hook. simpl.
    rewrite Hpre. simpl. rewrite Hmsg. simpl. rewrite Hpost.
    by repeat split.
Qed.

Lemma commit_skip_hooks_witness :
  (git.commit "Add post" None true example.no_signature false
     (example.git_repo (λ _, git.NotExecutable))).2
  = (git.commit "Add post" None true example.no_signature true
       (example.git_repo (λ _, git.NotExecutable))).2
  ∧ ∃ st' c,
      git.commit "Add post" None true example.no_signature true
        example.pre_commit_fails = (st', inr c)
      ∧ git.message c = "Add post".
Proof.
  split.
  - by apply (commit_skip_hooks "Add post" None true example.no_signature
                (example.git_repo (λ _, git.NotExecutable))).
  - destruct (commit_skip_hooks "Add post" None true example.no_signature
                example.pre_commit_fails) as [(st' & c & H1 & H2 & _) _].
    exists st', c. split; [exact H1|exact H2].
Defined.
